(** * Universal image loader: path resolution and image activation

    A shallow embedding of [src/js/universal-image-loader.js] and of the
    earlier variant of the same script kept in [src/unnamed/part_000].

    JavaScript strings are embedded as [string] (a sequence of character
    codes); every string operation of the scripts only compares against
    ASCII literals.  Array indices are [Z], with the [-1] sentinel of the
    scripts written out.  The ambient browser state the scripts read
    ([window.location] and the two built-ins they call on it) is passed
    explicitly as an [Env]. *)

From Stdlib Require Import ZArith Lia Bool Ascii.
From stdpp Require Import base list strings.

Local Open Scope Z_scope.

(** ** String and array methods used by the scripts *)

Module JS.

(** [s.startsWith(p)] *)
Definition startsWith (s p : string) : bool := String.prefix p s.

(** [s.substring(n)]: the string without its first [n] characters. *)
Fixpoint substring (n : nat) (s : string) : string :=
  match n, s with
  | O, _ => s
  | S n', String _ s' => substring n' s'
  | S _, EmptyString => EmptyString
  end.

(** [s.endsWith(p)] *)
Definition endsWith (s p : string) : bool :=
  (String.length p <=? String.length s)%nat
  && String.eqb (substring (String.length s - String.length p) s) p.

(** [s.replace(/^p/, '')] for a literal [p]: one leading [p] is removed. *)
Definition strip_prefix (p s : string) : string :=
  if startsWith s p then substring (String.length p) s else s.

(** [s.replace(/\\/g, '/')] *)
Fixpoint backslashes_to_slashes (s : string) : string :=
  match s with
  | EmptyString => EmptyString
  | String c s' =>
      String (if Ascii.eqb c "\" then "/"%char else c)
             (backslashes_to_slashes s')
  end.

(** [s.replace(/\/+/g, '/')]: every run of slashes becomes one slash. *)
Fixpoint collapse_slashes (s : string) : string :=
  match s with
  | EmptyString => EmptyString
  | String c s' =>
      if Ascii.eqb c "/" then
        match s' with
        | String c' _ =>
            if Ascii.eqb c' "/" then collapse_slashes s'
            else String c (collapse_slashes s')
        | EmptyString => String c EmptyString
        end
      else String c (collapse_slashes s')
  end.

(** [s.split('/')]: never empty, [''.split('/')] is [['']]. *)
Fixpoint split (s : string) : list string :=
  match s with
  | EmptyString => [EmptyString]
  | String c s' =>
      if Ascii.eqb c "/" then EmptyString :: split s'
      else match split s' with
           | h :: t => String c h :: t
           | [] => [String c EmptyString]
           end
  end.

(** The callback [function(p) { return p && p !== ''; }] *)
Definition truthy (p : string) : bool := negb (String.eqb p "").

(** [a || b] on strings: the empty string is the only falsy one. *)
Definition or (a b : string) : string := if truthy a then a else b.

(** [parts.join('/')] *)
Definition join (parts : list string) : string := String.concat "/" parts.

(** [arr.indexOf(x)]: the first index holding [x], or [-1]. *)
Fixpoint indexOf_from (x : string) (arr : list string) (i : Z) : Z :=
  match arr with
  | [] => -1
  | y :: rest => if String.eqb y x then i else indexOf_from x rest (i + 1)
  end.

Definition indexOf (arr : list string) (x : string) : Z :=
  indexOf_from x arr 0.

(** [if (parts.length > 0 && parts[parts.length - 1].endsWith('.html'))
     parts.pop();] *)
Definition pop_html (parts : list string) : list string :=
  if (0 <? Z.of_nat (length parts))
     && endsWith (List.last parts EmptyString) ".html"
  then removelast parts else parts.

End JS.

(** ** The browser state read by the scripts *)

(** [href] and [pathname] are [window.location.href] and
    [window.location.pathname].  [decodeURIComponent] and [URL_pathname]
    ([new URL(h).pathname]) are browser built-ins; [None] stands for the
    exception they throw on malformed input. *)
Record Env := {
  href : string;
  pathname : string;
  decodeURIComponent : string -> option string;
  URL_pathname : string -> option string
}.

Record Location := {
  fullPath : string;
  parts : list string;
  isFileProtocol : bool
}.

(** ** universal-image-loader.js *)

(** The [catch] fallback of [getFileLocation] (lines 49-58). *)
Definition getFileLocation_fallback (env : Env) : Location :=
  let parts := filter (fun p => JS.truthy p = true)
                      (JS.split (JS.or (pathname env) "")) in
  let parts := JS.pop_html parts in
  {| fullPath := JS.or (pathname env) ""; parts := parts;
     isFileProtocol := false |}.

(** The http/https branch of [getFileLocation] (lines 34-59). *)
Definition getFileLocation_http (env : Env) : Location :=
  match URL_pathname env (href env) with
  | Some path =>
      let parts := filter (fun p => JS.truthy p = true) (JS.split path) in
      let parts := JS.pop_html parts in
      {| fullPath := path; parts := parts; isFileProtocol := false |}
  | None => getFileLocation_fallback env
  end.

(** [getFileLocation] (lines 10-60).  In the [file://] branch the file
    name is popped before the empty segments are filtered out; a throwing
    [decodeURIComponent] falls through to the http branch. *)
Definition getFileLocation (env : Env) : Location :=
  if JS.startsWith (href env) "file://" then
    match decodeURIComponent env (JS.strip_prefix "file:///" (href env)) with
    | Some filePath =>
        let filePath := JS.backslashes_to_slashes filePath in
        let parts := JS.split filePath in
        let parts := JS.pop_html parts in
        {| fullPath := filePath;
           parts := filter (fun p => JS.truthy p = true) parts;
           isFileProtocol := true |}
    | None => getFileLocation_http env
    end
  else getFileLocation_http env.

(** The index loop of [fixImagePath] (lines 73-83): [i] is the loop
    counter, the pair is [(exploreIndex, gameIndex)]. *)
Fixpoint find_indices (dirParts : list string) (i : Z) (idx : Z * Z) : Z * Z :=
  match dirParts with
  | [] => idx
  | d :: rest =>
      let exploreIndex :=
        if String.eqb d "explore" && (idx.1 =? -1) then i else idx.1 in
      let gameIndex :=
        if String.eqb d "game" && (idx.2 =? -1) then i else idx.2 in
      find_indices rest (i + 1) (exploreIndex, gameIndex)
  end.

Definition exploreIndex (dirParts : list string) : Z :=
  (find_indices dirParts 0 (-1, -1)).1.

Definition gameIndex (dirParts : list string) : Z :=
  (find_indices dirParts 0 (-1, -1)).2.

(** Lines 85-87. *)
Definition isInExplore (dirParts : list string) : bool :=
  exploreIndex dirParts >=? 0.

Definition isInExploreGame (dirParts : list string) : bool :=
  isInExplore dirParts && (gameIndex dirParts >? exploreIndex dirParts).

Definition isInRootGame (dirParts : list string) : bool :=
  (gameIndex dirParts >=? 0) && negb (isInExplore dirParts).

(** [fixImagePath] (lines 63-132). *)
Definition fixImagePath (env : Env) (originalPath : string) : string :=
  if JS.startsWith originalPath "http://"
     || JS.startsWith originalPath "https://"
  then originalPath
  else
    let location := getFileLocation env in
    let dirParts := parts location in
    let path := originalPath in
    if JS.startsWith path "/" then
      let path := JS.substring 1 path in
      if isInExploreGame dirParts then
        "../../images/" +:+ JS.strip_prefix "images/" path
      else if isInExplore dirParts then
        "images/" +:+ JS.strip_prefix "images/" path
      else if isInRootGame dirParts then
        "../explore/images/" +:+ JS.strip_prefix "images/" path
      else
        "explore/images/" +:+ JS.strip_prefix "images/" path
    else if JS.startsWith path "../" then path
    else
      let path := if JS.startsWith path "./" then JS.substring 2 path
                  else path in
      if negb (JS.startsWith path "../") && negb (JS.startsWith path "images/")
      then
        if isInExplore dirParts && negb (isInExploreGame dirParts) then
          "images/" +:+ path
        else if isInExploreGame dirParts then
          "../../images/" +:+ path
        else path
      else path.

(** ** The image elements of the document *)

(** The variables an [onerror] handler closes over (lines 182-198). *)
Record Closure := {
  dataLoadPath : string;
  fixedPath : string
}.

(** An [img] element: the attributes [data-load] and [data-loaded]
    ([dataset.loaded]), the [src] attribute, the three inline style
    properties the script writes, and the installed handlers.  [None] is
    an absent attribute, the empty string an unset style property. *)
Record Img := {
  data_load : option string;
  data_loaded : option string;
  src : option string;
  style_display : string;
  style_visibility : string;
  style_opacity : string;
  onload : bool;
  onerror : option Closure
}.

Definition set_src (s : string) (this : Img) : Img :=
  {| data_load := data_load this; data_loaded := data_loaded this;
     src := Some s;
     style_display := style_display this;
     style_visibility := style_visibility this;
     style_opacity := style_opacity this;
     onload := onload this; onerror := onerror this |}.

(** The body of the [onerror] handler (lines 182-198), run on the element
    [this].  It returns the element and the final value of [triedPaths],
    which the handler extends at each assignment to [this.src]. *)
Definition onerror_handler (c : Closure) (this : Img) : Img * list string :=
  let originalPath := dataLoadPath c in
  let triedPaths := [fixedPath c] in
  if negb (String.eqb originalPath (fixedPath c))
     && negb (JS.startsWith originalPath "http")
  then (set_src originalPath this, triedPaths ++ [originalPath])
  else if JS.startsWith originalPath "/images/" then
    let altPath := "explore" +:+ originalPath in
    if JS.indexOf triedPaths altPath =? -1
    then (set_src altPath this, triedPaths ++ [altPath])
    else (this, triedPaths)
  else (this, triedPaths).

(** An error event on an element runs its handler, if one is installed. *)
Definition error_event (this : Img) : Img :=
  match onerror this with
  | Some c => (onerror_handler c this).1
  | None => this
  end.

(** The document is the list of its [img] elements in document order; an
    element is identified by its position.
    [document.querySelectorAll('img[data-load]')] *)
Definition querySelectorAll_img_data_load (doc : list Img) : list nat :=
  filter (fun i => is_Some (doc !! i ≫= data_load)) (seq 0 (length doc)).

(** The [forEach] callback of [loadAllImages] (lines 140-199) on the
    element [img]: the element as the callback leaves it.  The two early
    returns leave it as it was. *)
Definition loadAllImages_callback (env : Env) (img : Img) : Img :=
  if bool_decide (data_loaded img = Some "true") then img
  else
    match data_load img with
    | None => img
    | Some dataLoadPath =>
        if negb (JS.truthy dataLoadPath) then img
        else
          let fixedPath := fixImagePath env dataLoadPath in
          {| data_load := data_load img;
             data_loaded := Some "true";
             src := Some fixedPath;
             style_display := "block";
             style_visibility := "visible";
             style_opacity := "1";
             onload := true;
             onerror := Some {| dataLoadPath := dataLoadPath;
                                fixedPath := fixedPath |} |}
    end.

(** [nodes.forEach(f)]: [f] runs on the elements at the positions
    [nodes], in order, each time on the current state of the document. *)
Definition forEach (f : Img → Img) (nodes : list nat) (doc : list Img)
  : list Img :=
  foldl (fun doc i => match doc !! i with
                      | Some img => <[i := f img]> doc
                      | None => doc
                      end) doc nodes.

(** [loadAllImages] (lines 135-200). *)
Definition loadAllImages (env : Env) (doc : list Img) : list Img :=
  forEach (loadAllImages_callback env) (querySelectorAll_img_data_load doc) doc.

(** ** src/unnamed/part_000 *)

Module Part000.

(** Lines 17-23. *)
Definition pathParts (env : Env) : list string :=
  let currentPath := JS.or (pathname env) (href env) in
  JS.pop_html (filter (fun p => JS.truthy p = true) (JS.split currentPath)).

(** [fixImagePath] (lines 10-76). *)
Definition fixImagePath (env : Env) (path : string) : string :=
  if JS.startsWith path "http://" || JS.startsWith path "https://"
  then path
  else
    let pathParts := pathParts env in
    if JS.startsWith path "/" then
      let path := JS.substring 1 path in
      let exploreIndex := JS.indexOf pathParts "explore" in
      let gameIndex := JS.indexOf pathParts "game" in
      let inExplore := exploreIndex >=? 0 in
      let inGame := gameIndex >=? 0 in
      if inExplore && inGame then "../../" +:+ path
      else if inExplore then path
      else if inGame then
        if JS.startsWith path "images/" then "../explore/" +:+ path
        else "../" +:+ path
      else
        if JS.startsWith path "images/" then "explore/" +:+ path
        else path
    else if JS.startsWith path "../" then path
    else
      let path := if JS.startsWith path "./" then JS.substring 2 path
                  else path in
      let newPath := JS.join pathParts +:+ "/" +:+ path in
      let newPath := JS.collapse_slashes newPath in
      if JS.startsWith newPath "/" then JS.substring 1 newPath
      else newPath.

(** The body of the [onerror] handler of part_000 (lines 117-123). *)
Definition onerror_handler (c : Closure) (this : Img) : Img :=
  let originalPath := dataLoadPath c in
  if negb (String.eqb originalPath (fixedPath c))
     && negb (JS.startsWith originalPath "http")
  then set_src originalPath this
  else this.

(** The [forEach] callback of [loadAllImages] in part_000 (lines 82-124):
    unlike the loader it does not touch the style of the element. *)
Definition loadAllImages_callback (env : Env) (img : Img) : Img :=
  if bool_decide (data_loaded img = Some "true") then img
  else
    match data_load img with
    | None => img
    | Some dataLoadPath =>
        if negb (JS.truthy dataLoadPath) then img
        else
          let fixedPath := fixImagePath env dataLoadPath in
          {| data_load := data_load img;
             data_loaded := Some "true";
             src := Some fixedPath;
             style_display := style_display img;
             style_visibility := style_visibility img;
             style_opacity := style_opacity img;
             onload := true;
             onerror := Some {| dataLoadPath := dataLoadPath;
                                fixedPath := fixedPath |} |}
    end.

(** [loadAllImages] of part_000 (lines 79-125). *)
Definition loadAllImages (env : Env) (doc : list Img) : list Img :=
  forEach (loadAllImages_callback env) (querySelectorAll_img_data_load doc) doc.

End Part000.

(** ** The load handler *)

(** An element as the [onload] handler sees it: its class names and the
    three inline style properties. *)
Record Node := {
  classList : list string;
  node_display : string;
  node_visibility : string;
  node_opacity : string
}.

(** [this.style.display = 'block'; this.style.visibility = 'visible';
     this.style.opacity = '1';] *)
Definition show (n : Node) : Node :=
  {| classList := classList n; node_display := "block";
     node_visibility := "visible"; node_opacity := "1" |}.

(** [x.style.display = 'none'] *)
Definition hide (n : Node) : Node :=
  {| classList := classList n; node_display := "none";
     node_visibility := node_visibility n; node_opacity := node_opacity n |}.

(** [parent.querySelector('.' + cls)] over the descendants of [parent] in
    document order: the position of the first one with the class. *)
Fixpoint querySelector_class (cls : string) (nodes : list Node) : option nat :=
  match nodes with
  | [] => None
  | n :: rest =>
      if bool_decide (cls ∈ classList n) then Some 0%nat
      else S <$> querySelector_class cls rest
  end.

(** The body of the [onload] handler (lines 164-179; the same statements
    in part_000, lines 101-114).  [nodes] are the descendants of
    [this.parentElement] in document order and [this] is the position of
    the image among them.  The counter [loadedCount] is never read and is
    left out; an image that has lost its parent is outside this model. *)
Definition onload_handler (this : nat) (nodes : list Node) : list Node :=
  let nodes := alter show this nodes in
  let nodes :=
    match querySelector_class "loader" nodes with
    | Some loader => alter hide loader nodes
    | None => nodes
    end in
  match querySelector_class "loading-img" nodes with
  | Some loadingImg => alter hide loadingImg nodes
  | None => nodes
  end.

(** What the load handler does to the node at position [i]: shown if it
    is the image, then hidden if it is the first "loader", then hidden if
    it is the first "loading-img". *)
Definition onload_at (this : nat) (nodes : list Node) (i : nat) (n : Node)
  : Node :=
  let n := if decide (this = i) then show n else n in
  let n := if decide (querySelector_class "loader" nodes = Some i)
           then hide n else n in
  if decide (querySelector_class "loading-img" nodes = Some i)
  then hide n else n.

(** A parent with a spinner in front of an image that carries the class
    "loading-img" itself. *)
Definition spinner_and_image : list Node :=
  [ {| classList := ["loader"]; node_display := "block";
       node_visibility := ""; node_opacity := "" |};
    {| classList := ["loading-img"]; node_display := "";
       node_visibility := ""; node_opacity := "" |} ].

(** ** Events on the document *)

(** What happens to the document after the script has started: a run of
    [loadAllImages] (from the ready handler or from a timer, reading the
    location at that time), or a load failure of the element at a
    position, which runs its [onerror] handler. *)
Inductive Event :=
| Scan (env : Env)
| ErrorAt (i : nat).

Definition dispatch (doc : list Img) (e : Event) : list Img :=
  match e with
  | Scan env => loadAllImages env doc
  | ErrorAt i => alter error_event i doc
  end.

Definition dispatch_all (events : list Event) (doc : list Img) : list Img :=
  foldl dispatch doc events.

(** ** Concrete pages *)

(** A page of the site served over https at the path [p], with the two
    built-ins as they behave on that page's own address: the address
    parses to its path, and a string without escapes decodes to itself. *)
Definition site_origin : string := "https://brainfungames.com".

Definition page (p : string) : Env :=
  {| href := site_origin +:+ p;
     pathname := p;
     decodeURIComponent := Some;
     URL_pathname := fun h =>
       if JS.startsWith h (site_origin +:+ "/")
       then Some (JS.substring (String.length site_origin) h)
       else None |}.

(** A page opened from the local disk at the path [p] (written without
    its leading "/"), with the built-ins as they behave on its address. *)
Definition local_page (p : string) : Env :=
  {| href := "file:///" +:+ p;
     pathname := "/" +:+ p;
     decodeURIComponent := Some;
     URL_pathname := fun h =>
       if JS.startsWith h "file://"
       then Some (JS.substring (String.length "file://") h)
       else None |}.

(** A placeholder as the markup declares it: [<img data-load="d">]. *)
Definition placeholder (d : string) : Img :=
  {| data_load := Some d; data_loaded := None; src := None;
     style_display := ""; style_visibility := ""; style_opacity := "";
     onload := false; onerror := None |}.

(** ** Positions of a segment name in a segment list *)

(** [first_at x l i]: the first occurrence of [x] in [l] is at index [i]. *)
Definition first_at (x : string) (l : list string) (i : nat) : Prop :=
  l !! i = Some x ∧ ∀ j, (j < i)%nat → l !! j ≠ Some x.

(** [s] has an occurrence of [sub] as a contiguous substring. *)
Fixpoint includes (sub s : string) : bool :=
  String.prefix sub s
  || match s with
     | EmptyString => false
     | String _ s' => includes sub s'
     end.

(** The first occurrence of "explore" comes before the first occurrence
    of "game". *)
Definition explore_then_game (l : list string) : Prop :=
  ∃ i j, first_at "explore" l i ∧ first_at "game" l j ∧ (i < j)%nat.

Definition game_then_explore (l : list string) : Prop :=
  ∃ i j, first_at "explore" l i ∧ first_at "game" l j ∧ (j < i)%nat.

(** The prefix [fixImagePath] puts in front of an absolute path, by the
    if-chain of lines 94-106. *)
Definition absolute_prefix (dirParts : list string) : string :=
  if isInExploreGame dirParts then "../../images/"
  else if isInExplore dirParts then "images/"
  else if isInRootGame dirParts then "../explore/images/"
  else "explore/images/".

(** A network scheme prefix in the general sense: a scheme name made of
    ASCII letters, followed by "://" (as in "http://", "ftp://",
    "HTTPS://"). *)
Definition is_letter (c : ascii) : bool :=
  let n := nat_of_ascii c in
  ((65 <=? n) && (n <=? 90) || (97 <=? n) && (n <=? 122))%nat.

Fixpoint skip_letters (s : string) : string :=
  match s with
  | EmptyString => EmptyString
  | String c s' => if is_letter c then skip_letters s' else s
  end.

Definition network_scheme_prefix (path : string) : bool :=
  match path with
  | EmptyString => false
  | String c _ => is_letter c && JS.startsWith (skip_letters path) "://"
  end.

(** A bare relative path: no scheme prefix, and none of "/", "../", "./"
    in front. *)
Definition bare (path : string) : bool :=
  negb (JS.startsWith path "http://") && negb (JS.startsWith path "https://")
  && negb (JS.startsWith path "/") && negb (JS.startsWith path "../")
  && negb (JS.startsWith path "./").

(** An element the scan has nothing left to do with: flagged as loaded,
    or without a declared path. *)
Definition settled (img : Img) : Prop :=
  data_loaded img = Some "true" ∨ data_load img = None
  ∨ data_load img = Some "".

(** An element as a scan under [env] has activated it for the declared
    path [d], up to the choice between the resolved and the declared path
    as its [src]. *)
Definition activated (env : Env) (d : string) (img : Img) : Prop :=
  data_load img = Some d
  ∧ data_loaded img = Some "true"
  ∧ onerror img = Some {| dataLoadPath := d; fixedPath := fixImagePath env d |}
  ∧ style_display img = "block"
  ∧ style_visibility img = "visible"
  ∧ style_opacity img = "1"
  ∧ (src img = Some (fixImagePath env d) ∨ src img = Some d).

(** The address path that names the directories [segs] one below the
    other: "/" in front of each. *)
Definition path_of (segs : list string) : string :=
  foldr (fun seg rest => "/" +:+ seg +:+ rest) "" segs.

(** A segment name: not empty and without a separator. *)
Definition segment (seg : string) : bool :=
  JS.truthy seg && negb (includes "/" seg).

(** ** Facts about the string methods *)

Section strings.
Implicit Types s p r : string.

Lemma append_nil r : "" +:+ r = r.
Proof. reflexivity. Qed.

Lemma append_cons a p r : String a p +:+ r = String a (p +:+ r).
Proof. reflexivity. Qed.

Lemma startsWith_append s p :
  JS.startsWith s p = true → s = p +:+ JS.substring (String.length p) s.
Proof.
  unfold JS.startsWith. revert s.
  induction p as [|a p IH]; intros [|b s]; simpl; try done.
  destruct (ascii_dec a b) as [->|]; [|done].
  intros H. rewrite append_cons. f_equal. by apply IH.
Qed.

Lemma startsWith_of_append p r : JS.startsWith (p +:+ r) p = true.
Proof.
  unfold JS.startsWith. induction p as [|a p IH].
  - by destruct r.
  - rewrite append_cons. simpl. by destruct (ascii_dec a a).
Qed.

Lemma substring_append p r : JS.substring (String.length p) (p +:+ r) = r.
Proof. induction p; [done|]. by rewrite append_cons. Qed.

Lemma strip_prefix_append p r : JS.strip_prefix p (p +:+ r) = r.
Proof.
  unfold JS.strip_prefix. by rewrite startsWith_of_append, substring_append.
Qed.

Lemma strip_prefix_other p s :
  JS.startsWith s p = false → JS.strip_prefix p s = s.
Proof. unfold JS.strip_prefix. by intros ->. Qed.

End strings.

(** ** Facts about the index loop *)

Section indices.
Implicit Types (l : list string) (x : string).

Lemma first_at_unique x l i j : first_at x l i → first_at x l j → i = j.
Proof.
  intros [Hi Hi'] [Hj Hj'].
  destruct (Nat.lt_trichotomy i j) as [H|[H|H]]; [|done|].
  - by destruct (Hj' _ H).
  - by destruct (Hi' _ H).
Qed.

Lemma first_at_elem x l i : first_at x l i → x ∈ l.
Proof. intros [H _]. by eapply list_elem_of_lookup_2. Qed.

Lemma first_at_cons_eq x l : first_at x (x :: l) 0.
Proof. split; [done | lia]. Qed.

Lemma first_at_cons_ne x y l i :
  y ≠ x → first_at x l i → first_at x (y :: l) (S i).
Proof.
  intros Hne [H1 H2]. split; [done|].
  intros [|j] Hj; simpl; [congruence | apply H2; lia].
Qed.

(** [indexOf] returns [-1] exactly on the lists without [x], and
    otherwise the index of the first occurrence. *)
Lemma indexOf_from_spec x l k :
  ((x ∉ l) ∧ JS.indexOf_from x l k = -1)
  ∨ (∃ i, first_at x l i ∧ JS.indexOf_from x l k = k + Z.of_nat i).
Proof.
  revert k. induction l as [|y l IH]; intros k; simpl.
  - left. split; [apply not_elem_of_nil | done].
  - destruct (String.eqb_spec y x) as [->|Hne].
    + right. exists 0%nat. split; [apply first_at_cons_eq | lia].
    + destruct (IH (k + 1)) as [[Hnot Heq]|(i & Hi & Heq)].
      * left. split; [|done]. rewrite not_elem_of_cons. split; [congruence|done].
      * right. exists (S i). split; [by apply first_at_cons_ne | lia].
Qed.

Lemma indexOf_spec x l :
  ((x ∉ l) ∧ JS.indexOf l x = -1)
  ∨ (∃ i, first_at x l i ∧ JS.indexOf l x = Z.of_nat i).
Proof.
  unfold JS.indexOf. destruct (indexOf_from_spec x l 0) as [?|(i & ? & ?)];
    [by left | right; exists i; split; [done | lia]].
Qed.

Lemma indexOf_first_at x l i :
  first_at x l i ↔ JS.indexOf l x = Z.of_nat i.
Proof.
  destruct (indexOf_spec x l) as [[Hn ->]|(k & Hk & ->)].
  - split; [intros H; by apply first_at_elem in H | lia].
  - split; [intros H; by rewrite (first_at_unique _ _ _ _ H Hk) |].
    intros H. by replace i with k by lia.
Qed.

(** The loop of [fixImagePath] computes the two [indexOf] results. *)
Lemma find_indices_indexOf l k e g :
  0 ≤ k →
  find_indices l k (e, g) =
    (if e =? -1 then JS.indexOf_from "explore" l k else e,
     if g =? -1 then JS.indexOf_from "game" l k else g).
Proof.
  revert k e g. induction l as [|d l IH]; intros k e g Hk; simpl.
  - by destruct (Z.eqb_spec e (-1)) as [->|], (Z.eqb_spec g (-1)) as [->|].
  - rewrite IH by lia.
    assert (Hk' : (k =? -1) = false) by lia.
    destruct (String.eqb d "explore"), (String.eqb d "game"),
             (e =? -1) eqn:He, (g =? -1) eqn:Hg; simpl;
      by rewrite ?Hk', ?He, ?Hg.
Qed.

Lemma exploreIndex_indexOf l : exploreIndex l = JS.indexOf l "explore".
Proof. unfold exploreIndex. by rewrite find_indices_indexOf. Qed.

Lemma gameIndex_indexOf l : gameIndex l = JS.indexOf l "game".
Proof. unfold gameIndex. by rewrite find_indices_indexOf. Qed.

Lemma isInExplore_true l : isInExplore l = true ↔ "explore" ∈ l.
Proof.
  unfold isInExplore. rewrite exploreIndex_indexOf.
  destruct (indexOf_spec "explore" l) as [[Hn ->]|(i & Hi & ->)].
  - split; [done | by intros ?].
  - split; [intros _; by eapply first_at_elem | intros _; apply Z.geb_le; lia].
Qed.

Lemma isInExplore_false l : isInExplore l = false ↔ "explore" ∉ l.
Proof. rewrite <- isInExplore_true. by destruct (isInExplore l). Qed.

Lemma isInExploreGame_true l :
  isInExploreGame l = true ↔ explore_then_game l.
Proof.
  unfold isInExploreGame, isInExplore, explore_then_game.
  rewrite exploreIndex_indexOf, gameIndex_indexOf.
  destruct (indexOf_spec "explore" l) as [[He ->]|(i & Hi & ->)],
           (indexOf_spec "game" l) as [[Hg ->]|(j & Hj & ->)].
  - split; [done | intros (i & _ & Hi & _); by apply first_at_elem in Hi].
  - split; [done | intros (i & _ & Hi & _); by apply first_at_elem in Hi].
  - split; [rewrite andb_true_iff, Z.geb_le, Z.gtb_lt; lia
           | intros (_ & j & _ & Hj & _); by apply first_at_elem in Hj].
  - rewrite andb_true_iff, Z.geb_le, Z.gtb_lt. split.
    + intros H. exists i, j. split; [done|]. split; [done | lia].
    + intros (i' & j' & Hi' & Hj' & Hlt).
      rewrite (first_at_unique _ _ _ _ Hi Hi'), (first_at_unique _ _ _ _ Hj Hj').
      lia.
Qed.

Lemma isInRootGame_true l :
  isInRootGame l = true ↔ "game" ∈ l ∧ "explore" ∉ l.
Proof.
  unfold isInRootGame. rewrite andb_true_iff, negb_true_iff, isInExplore_false.
  rewrite gameIndex_indexOf.
  destruct (indexOf_spec "game" l) as [[Hg ->]|(j & Hj & ->)].
  - split; [intros [? _]; done | intros [? _]; done].
  - apply first_at_elem in Hj. rewrite Z.geb_le.
    split; [intros [_ ?]; done | intros [_ ?]; split; [lia|done]].
Qed.

End indices.

(** ** Directory classification *)

(** C5: the explore+game classification holds exactly when both segment
    names occur and the first "game" comes after the first "explore"; the
    two indices of the loop are the first-occurrence indices; and a
    segment list with "game" first and "explore" later is classified as
    plain explore: in explore, not in explore+game, not in root game. *)
Theorem classification_by_first_occurrence (dirParts : list string) :
  exploreIndex dirParts = JS.indexOf dirParts "explore"
  ∧ gameIndex dirParts = JS.indexOf dirParts "game"
  ∧ (∀ i, first_at "explore" dirParts i ↔ exploreIndex dirParts = Z.of_nat i)
  ∧ (∀ j, first_at "game" dirParts j ↔ gameIndex dirParts = Z.of_nat j)
  ∧ (isInExploreGame dirParts = true ↔ explore_then_game dirParts)
  ∧ (game_then_explore dirParts →
     isInExplore dirParts = true
     ∧ isInExploreGame dirParts = false
     ∧ isInRootGame dirParts = false).
Proof.
  split; [apply exploreIndex_indexOf|].
  split; [apply gameIndex_indexOf|].
  split; [intros i; rewrite exploreIndex_indexOf; apply indexOf_first_at|].
  split; [intros j; rewrite gameIndex_indexOf; apply indexOf_first_at|].
  split; [apply isInExploreGame_true|].
  intros (i & j & Hi & Hj & Hlt).
  assert (He : isInExplore dirParts = true)
    by (apply isInExplore_true; by eapply first_at_elem).
  split; [done|]. split.
  - apply not_true_iff_false. rewrite isInExploreGame_true.
    intros (i' & j' & Hi' & Hj' & Hlt').
    rewrite (first_at_unique _ _ _ _ Hi Hi') in Hlt.
    rewrite (first_at_unique _ _ _ _ Hj Hj') in Hlt. lia.
  - unfold isInRootGame. rewrite He. apply andb_false_r.
Qed.

Lemma classification_by_first_occurrence_witness :
  isInExplore ["game"; "explore"] = true
  ∧ isInExploreGame ["game"; "explore"] = false
  ∧ isInRootGame ["game"; "explore"] = false.
Proof.
  apply (classification_by_first_occurrence ["game"; "explore"]).
  exists 1%nat, 0%nat. split; [|split; [|lia]].
  - split; [reflexivity|]. intros [|j] Hj; [discriminate | lia].
  - split; [reflexivity|]. intros j Hj; lia.
Defined.

(** ** The cases of [fixImagePath] *)

Section resolver.
Variable env : Env.
Implicit Types p r : string.

Lemma fixImagePath_absolute r :
  fixImagePath env (String "/" r) =
    absolute_prefix (parts (getFileLocation env))
    +:+ JS.strip_prefix "images/" r.
Proof.
  unfold fixImagePath, absolute_prefix.
  change (JS.startsWith (String "/" r) "http://") with false.
  change (JS.startsWith (String "/" r) "https://") with false.
  replace (JS.startsWith (String "/" r) "/") with true by by destruct r.
  change (JS.substring 1 (String "/" r)) with r.
  cbv beta iota zeta. simpl orb.
  set (dirParts := parts (getFileLocation env)).
  by destruct (isInExploreGame dirParts), (isInExplore dirParts),
              (isInRootGame dirParts).
Qed.

Lemma startsWith_slash p :
  JS.startsWith p "/" = true → ∃ r, p = String "/" r.
Proof.
  intros H. apply startsWith_append in H. rewrite H. eauto.
Qed.

(** What [fixImagePath] does with a path that has no scheme prefix and
    starts with none of "/", "../" and "./" (lines 120-131). *)
Lemma fixImagePath_bare p :
  JS.startsWith p "http://" = false →
  JS.startsWith p "https://" = false →
  JS.startsWith p "/" = false →
  JS.startsWith p "../" = false →
  JS.startsWith p "./" = false →
  fixImagePath env p =
    let dirParts := parts (getFileLocation env) in
    if JS.startsWith p "images/" then p
    else if isInExplore dirParts && negb (isInExploreGame dirParts)
         then "images/" +:+ p
         else if isInExploreGame dirParts then "../../images/" +:+ p
              else p.
Proof.
  intros H1 H2 H3 H4 H5. unfold fixImagePath.
  rewrite H1, H2, H3, H4, H5. cbv beta iota zeta. simpl orb.
  rewrite H4. simpl negb. simpl andb.
  by destruct (JS.startsWith p "images/").
Qed.

End resolver.

(** C2, as the code has it: a path that starts with one of the two
    literals "http://" and "https://", in lower case, is returned
    unchanged, whatever the location of the document.  No other scheme
    prefix is recognised (line 65). *)
Theorem fixImagePath_scheme_identity (env : Env) (path : string) :
  JS.startsWith path "http://" = true ∨ JS.startsWith path "https://" = true →
  fixImagePath env path = path.
Proof.
  intros H. unfold fixImagePath.
  by destruct H as [-> | ->]; rewrite ?orb_true_r.
Qed.

Lemma fixImagePath_scheme_identity_witness :
  fixImagePath (page "/explore/game/play.html") "http://x/y.png" = "http://x/y.png".
Proof.
  apply (fixImagePath_scheme_identity (page "/explore/game/play.html") "http://x/y.png").
  left. reflexivity.
Defined.

(** C2 as stated fails: "ftp://x/y.png" carries a network scheme prefix,
    but it is neither of the two literals the code tests, so on a page
    under explore/ it is treated as a bare relative path and gets
    "images/" in front.  The same happens to "HTTPS://x/y.png". *)
Lemma fixImagePath_other_scheme_counterexample :
  ¬ (∀ env path,
       network_scheme_prefix path = true → fixImagePath env path = path).
Proof.
  intros H.
  assert (Hftp := H (page "/explore/index.html") "ftp://x/y.png" eq_refl).
  vm_compute in Hftp. discriminate.
Qed.

Lemma fixImagePath_upper_case_scheme :
  network_scheme_prefix "HTTPS://x/y.png" = true
  ∧ fixImagePath (page "/explore/index.html") "HTTPS://x/y.png"
    = "images/HTTPS://x/y.png".
Proof. split; reflexivity. Qed.

(** C1: the four scenarios for the input "/images/a.png".  The segments
    are those of the document location; the explore+game context is the
    one where the first "game" segment comes after the first "explore"
    segment. *)
Theorem fixImagePath_scenarios (env : Env) :
  let segments := parts (getFileLocation env) in
  ("explore" ∉ segments → "game" ∉ segments →
     fixImagePath env "/images/a.png" = "explore/images/a.png")
  ∧ ("explore" ∈ segments → ¬ explore_then_game segments →
     fixImagePath env "/images/a.png" = "images/a.png")
  ∧ (explore_then_game segments →
     fixImagePath env "/images/a.png" = "../../images/a.png")
  ∧ ("game" ∈ segments → "explore" ∉ segments →
     fixImagePath env "/images/a.png" = "../explore/images/a.png").
Proof.
  intros segments. rewrite fixImagePath_absolute. fold segments.
  unfold absolute_prefix.
  change (JS.strip_prefix "images/" "images/a.png") with "a.png".
  repeat split.
  - intros He Hg.
    assert (H1 : isInExplore segments = false) by by apply isInExplore_false.
    assert (H2 : isInRootGame segments = false).
    { apply not_true_iff_false. rewrite isInRootGame_true. tauto. }
    unfold isInExploreGame. by rewrite H1, H2.
  - intros He Hn.
    apply isInExplore_true in He. rewrite <- isInExploreGame_true in Hn.
    apply not_true_iff_false in Hn. by rewrite Hn, He.
  - intros H. apply isInExploreGame_true in H. by rewrite H.
  - intros Hg He.
    assert (H1 : isInExplore segments = false) by by apply isInExplore_false.
    assert (H2 : isInRootGame segments = true) by by apply isInRootGame_true.
    unfold isInExploreGame. by rewrite H1, H2.
Qed.

Lemma fixImagePath_scenarios_witness :
  fixImagePath (page "/index.html") "/images/a.png" = "explore/images/a.png"
  ∧ fixImagePath (page "/explore/index.html") "/images/a.png" = "images/a.png"
  ∧ fixImagePath (page "/explore/game/2048.html") "/images/a.png"
    = "../../images/a.png"
  ∧ fixImagePath (page "/game/2048.html") "/images/a.png"
    = "../explore/images/a.png".
Proof.
  split; [|split; [|split]].
  - apply (fixImagePath_scenarios (page "/index.html")); compute_done.
  - apply (fixImagePath_scenarios (page "/explore/index.html")).
    + compute_done.
    + intros H. by apply isInExploreGame_true in H.
  - apply (fixImagePath_scenarios (page "/explore/game/2048.html")).
    by apply isInExploreGame_true.
  - apply (fixImagePath_scenarios (page "/game/2048.html")); compute_done.
Defined.

(** ** Absolute paths *)

Section absolute.
Implicit Types r : string.

Lemma absolute_prefix_cases l :
  absolute_prefix l = "../../images/" ∨ absolute_prefix l = "images/"
  ∨ absolute_prefix l = "../explore/images/"
  ∨ absolute_prefix l = "explore/images/".
Proof.
  unfold absolute_prefix.
  destruct (isInExploreGame l), (isInExplore l), (isInRootGame l); auto.
Qed.

(** Behind any of the four prefixes, "images/images/" occurs exactly
    when the rest starts with "images/" or has an occurrence itself. *)
Lemma includes_behind_images pre r :
  pre = "../../images/" ∨ pre = "images/" ∨ pre = "../explore/images/"
  ∨ pre = "explore/images/" →
  includes "images/images/" (pre +:+ r)
  = JS.startsWith r "images/" || includes "images/images/" r.
Proof.
  unfold JS.startsWith.
  intros [-> | [-> | [-> | ->]]]; rewrite !append_cons, append_nil;
    simpl; by rewrite ?orb_false_r.
Qed.

Lemma includes_strip_images r :
  JS.startsWith (JS.strip_prefix "images/" r) "images/"
  || includes "images/images/" (JS.strip_prefix "images/" r)
  = includes "images/images/" r.
Proof.
  destruct (JS.startsWith r "images/") eqn:H.
  - apply startsWith_append in H. rewrite H at 3. rewrite H at 1 2.
    rewrite strip_prefix_append. symmetry. apply includes_behind_images. auto.
  - by rewrite strip_prefix_other, H.
Qed.

Lemma absolute_result_no_slash env r :
  JS.startsWith (fixImagePath env (String "/" r)) "/" = false.
Proof.
  rewrite fixImagePath_absolute.
  by destruct (absolute_prefix_cases (parts (getFileLocation env)))
    as [-> | [-> | [-> | ->]]].
Qed.

End absolute.

(** C3, as the code has it: for an input that starts with "/", the result
    never starts with "/", and it contains "images/images/" exactly when
    the input already does.  Only one leading "images/" is stripped. *)
Theorem fixImagePath_absolute_result (env : Env) (path : string) :
  JS.startsWith path "/" = true →
  JS.startsWith (fixImagePath env path) "/" = false
  ∧ includes "images/images/" (fixImagePath env path)
    = includes "images/images/" path.
Proof.
  intros H. apply startsWith_slash in H as [r ->].
  split; [apply absolute_result_no_slash|].
  rewrite fixImagePath_absolute.
  rewrite includes_behind_images by apply absolute_prefix_cases.
  rewrite includes_strip_images. reflexivity.
Qed.

Lemma fixImagePath_absolute_result_witness :
  JS.startsWith (fixImagePath (page "/explore/index.html") "/images/a.png") "/"
  = false
  ∧ includes "images/images/"
      (fixImagePath (page "/explore/index.html") "/images/a.png")
    = includes "images/images/" "/images/a.png".
Proof.
  apply (fixImagePath_absolute_result (page "/explore/index.html") "/images/a.png").
  reflexivity.
Defined.

(** C3 as stated fails: an absolute path with a doubled "images/" keeps
    one of the two copies behind the prefix that ends in "images/". *)
Lemma fixImagePath_absolute_duplicate_counterexample :
  ¬ (∀ env path,
       JS.startsWith path "/" = true →
       JS.startsWith (fixImagePath env path) "/" = false
       ∧ includes "images/images/" (fixImagePath env path) = false).
Proof.
  intros H.
  destruct (H (page "/index.html") "/images/images/a.png" eq_refl) as [_ Hdup].
  vm_compute in Hdup. discriminate.
Qed.

(** ** Bare relative paths *)

(** C4, as the code has it: a bare relative path that starts with
    "images/" is returned unchanged in every context; any other bare
    relative path gets "images/" in front in the explore context,
    "../../images/" in the explore+game context, and is returned
    unchanged when "explore" is not among the segments. *)
Theorem fixImagePath_bare_relative (env : Env) (path : string) :
  bare path = true →
  let segments := parts (getFileLocation env) in
  (JS.startsWith path "images/" = true → fixImagePath env path = path)
  ∧ (JS.startsWith path "images/" = false →
     ("explore" ∈ segments → ¬ explore_then_game segments →
        fixImagePath env path = "images/" +:+ path)
     ∧ (explore_then_game segments →
        fixImagePath env path = "../../images/" +:+ path)
     ∧ ("explore" ∉ segments → fixImagePath env path = path)).
Proof.
  intros Hbare segments. unfold bare in Hbare.
  rewrite !andb_true_iff, !negb_true_iff in Hbare.
  destruct Hbare as [[[[H1 H2] H3] H4] H5].
  rewrite (fixImagePath_bare env path H1 H2 H3 H4 H5). fold segments.
  cbv zeta. split; [by intros ->|]. intros ->.
  rewrite <- isInExploreGame_true, <- isInExplore_true.
  unfold isInExploreGame.
  destruct (isInExplore segments), (gameIndex segments >? exploreIndex segments);
    simpl; repeat split; try done; intros; congruence.
Qed.

Lemma fixImagePath_bare_relative_witness :
  fixImagePath (page "/explore/index.html") "a.png" = "images/a.png".
Proof.
  apply (fixImagePath_bare_relative (page "/explore/index.html") "a.png");
    [reflexivity | reflexivity | compute_done |].
  intros H. by apply isInExploreGame_true in H.
Defined.

(** C4 as stated fails: in the explore context the bare relative path
    "images/a.png" comes back unchanged, without a second "images/". *)
Lemma fixImagePath_bare_images_counterexample :
  ¬ (∀ env path,
       bare path = true →
       "explore" ∈ parts (getFileLocation env) →
       ¬ explore_then_game (parts (getFileLocation env)) →
       fixImagePath env path = "images/" +:+ path).
Proof.
  intros H.
  assert (Hfix : fixImagePath (page "/explore/index.html") "images/a.png"
                 = "images/" +:+ "images/a.png").
  { apply H; [reflexivity | compute_done |].
    intros H'. by apply isInExploreGame_true in H'. }
  vm_compute in Hfix. discriminate.
Qed.

(** ** Re-resolution *)

(** C9: [fixImagePath] is not idempotent across contexts.  The bare
    relative path "a.png" resolved on a root page is "a.png"; resolving
    that result again on a page under explore/ gives "images/a.png". *)
Theorem fixImagePath_not_idempotent :
  ∃ path env1 env2,
    bare path = true
    ∧ fixImagePath env2 (fixImagePath env1 path) ≠ fixImagePath env1 path.
Proof.
  exists "a.png", (page "/index.html"), (page "/explore/index.html").
  split; [reflexivity|]. vm_compute. discriminate.
Qed.

(** ** The two variants of the resolver *)

Section variants.
Variable env : Env.

Lemma later_game_index (l : list string) :
  isInExplore l = true → (JS.indexOf l "game" >=? 0) = true →
  ¬ game_then_explore l →
  isInExploreGame l = true.
Proof.
  unfold isInExploreGame, isInExplore, game_then_explore.
  rewrite exploreIndex_indexOf, gameIndex_indexOf.
  destruct (indexOf_spec "explore" l) as [[_ ->]|(i & Hi & ->)]; [done|].
  destruct (indexOf_spec "game" l) as [[_ ->]|(j & Hj & ->)]; [done|].
  intros _ _ Hn. rewrite andb_true_iff, Z.geb_le, Z.gtb_lt.
  split; [lia|].
  destruct (Nat.lt_trichotomy i j) as [H|[->|H]]; [lia | | ].
  - destruct Hi as [Hi _], Hj as [Hj _]. congruence.
  - destruct Hn. eauto.
Qed.

(** Both variants leave a path that starts with "../" alone. *)
Lemma parent_relative_unchanged (p : string) :
  JS.startsWith p "../" = true →
  fixImagePath env p = p ∧ Part000.fixImagePath env p = p.
Proof.
  intros H.
  assert (JS.startsWith p "http://" = false
          ∧ JS.startsWith p "https://" = false
          ∧ JS.startsWith p "/" = false) as (H1 & H2 & H3)
    by (by rewrite (startsWith_append _ _ H), !append_cons).
  unfold fixImagePath, Part000.fixImagePath.
  by rewrite H1, H2, H3, H.
Qed.

(** On an http(s) page whose address parses to its own path, both
    variants see the same segments. *)
Lemma pathParts_agree_http :
  JS.startsWith (href env) "file://" = false →
  pathname env ≠ "" →
  URL_pathname env (href env) = Some (pathname env) →
  Part000.pathParts env = parts (getFileLocation env).
Proof.
  intros Hf Hp Hu.
  unfold Part000.pathParts, getFileLocation, getFileLocation_http.
  rewrite Hf, Hu. unfold JS.or, JS.truthy.
  apply String.eqb_neq in Hp. by rewrite Hp.
Qed.

End variants.

(** C6, as the code has it: the two variants agree on paths with a scheme
    prefix and on paths that start with "../"; they agree on paths that
    start with "/images/" when they see the same segments and "game" does
    not come before "explore" there. *)
Theorem fixImagePath_variants_agree (env : Env) (path : string) :
  (JS.startsWith path "http://" = true ∨ JS.startsWith path "https://" = true
   ∨ JS.startsWith path "../" = true →
   fixImagePath env path = Part000.fixImagePath env path)
  ∧ (Part000.pathParts env = parts (getFileLocation env) →
     ¬ game_then_explore (parts (getFileLocation env)) →
     JS.startsWith path "/images/" = true →
     fixImagePath env path = Part000.fixImagePath env path).
Proof.
  split.
  - intros [H | [H | H]].
    + unfold fixImagePath, Part000.fixImagePath. by rewrite H.
    + unfold fixImagePath, Part000.fixImagePath. by rewrite H, orb_true_r.
    + destruct (parent_relative_unchanged env path H) as [-> ->]. reflexivity.
  - intros Hparts Hn H. apply startsWith_append in H. rewrite H.
    set (r := JS.substring _ path). clearbody r. clear H.
    change ("/images/" +:+ r) with (String "/" ("images/" +:+ r)).
    rewrite fixImagePath_absolute, strip_prefix_append.
    unfold Part000.fixImagePath. rewrite Hparts.
    set (l := parts (getFileLocation env)) in *.
    change (JS.startsWith (String "/" ("images/" +:+ r)) "http://") with false.
    change (JS.startsWith (String "/" ("images/" +:+ r)) "https://") with false.
    change (JS.startsWith (String "/" ("images/" +:+ r)) "/") with true.
    change (JS.substring 1 (String "/" ("images/" +:+ r))) with ("images/" +:+ r).
    cbv beta iota zeta. simpl orb. rewrite startsWith_of_append.
    unfold absolute_prefix.
    destruct (JS.indexOf l "explore" >=? 0) eqn:He.
    + assert (He' : isInExplore l = true)
        by (unfold isInExplore; by rewrite exploreIndex_indexOf).
      destruct (JS.indexOf l "game" >=? 0) eqn:Hg; simpl.
      * by rewrite (later_game_index l He' Hg Hn).
      * assert (Hg' : isInExploreGame l = false).
        { unfold isInExploreGame. rewrite He'.
          rewrite gameIndex_indexOf, exploreIndex_indexOf. simpl.
          rewrite Z.gtb_ltb. apply Z.ltb_ge.
          rewrite Z.geb_leb in He, Hg.
          apply Z.leb_le in He. apply Z.leb_gt in Hg. lia. }
        by rewrite Hg', He'.
    + assert (He' : isInExplore l = false)
        by (unfold isInExplore; by rewrite exploreIndex_indexOf).
      unfold isInExploreGame, isInRootGame. rewrite He', gameIndex_indexOf.
      simpl. by destruct (JS.indexOf l "game" >=? 0).
Qed.

Lemma fixImagePath_variants_agree_witness :
  fixImagePath (page "/game/2048.html") "/images/a.png"
  = Part000.fixImagePath (page "/game/2048.html") "/images/a.png".
Proof.
  apply (fixImagePath_variants_agree (page "/game/2048.html") "/images/a.png").
  - reflexivity.
  - intros (i & j & Hi & _). apply first_at_elem in Hi. revert Hi. compute_done.
  - reflexivity.
Defined.

(** C6 as stated fails: on a root page the absolute path "/a.png" becomes
    "explore/images/a.png" in the loader and "a.png" in part_000. *)
Lemma fixImagePath_variants_differ_counterexample :
  ¬ (∀ env path, fixImagePath env path = Part000.fixImagePath env path).
Proof.
  intros H. specialize (H (page "/index.html") "/a.png").
  vm_compute in H. discriminate.
Qed.

(** ** The scanning loop *)

Section scan.
Implicit Types (doc : list Img) (nodes : list nat) (f : Img → Img).

Lemma forEach_cons f i nodes doc :
  forEach f (i :: nodes) doc =
    forEach f nodes (match doc !! i with
                     | Some img => <[i := f img]> doc
                     | None => doc
                     end).
Proof. reflexivity. Qed.

Lemma forEach_lookup_notin f nodes doc j :
  j ∉ nodes → forEach f nodes doc !! j = doc !! j.
Proof.
  revert doc. induction nodes as [|i nodes IH]; intros doc Hj; [done|].
  apply not_elem_of_cons in Hj as [Hne Hj].
  rewrite forEach_cons, IH by done.
  destruct (doc !! i); [|done]. by apply list_lookup_insert_ne.
Qed.

Lemma forEach_lookup_in f nodes doc j :
  NoDup nodes → j ∈ nodes → forEach f nodes doc !! j = f <$> doc !! j.
Proof.
  revert doc. induction nodes as [|i nodes IH]; intros doc Hnd Hj.
  - by apply elem_of_nil in Hj.
  - apply NoDup_cons in Hnd as [Hi Hnd]. rewrite forEach_cons.
    apply elem_of_cons in Hj as [->|Hj].
    + rewrite forEach_lookup_notin by done.
      destruct (doc !! i) as [img|] eqn:Hl; [|by rewrite Hl].
      rewrite list_lookup_insert_eq; [done|]. by eapply lookup_lt_Some.
    + rewrite IH by done.
      destruct (doc !! i) as [img|]; [|done].
      rewrite list_lookup_insert_ne; [done|]. by intros ->.
Qed.

Lemma querySelectorAll_NoDup doc : NoDup (querySelectorAll_img_data_load doc).
Proof. apply NoDup_filter, NoDup_seq. Qed.

Lemma querySelectorAll_elem doc j :
  j ∈ querySelectorAll_img_data_load doc ↔ is_Some (doc !! j ≫= data_load).
Proof.
  unfold querySelectorAll_img_data_load.
  rewrite list_elem_of_filter, elem_of_seq. split; [by intros [? _]|].
  intros H. split; [done|]. split; [lia|]. simpl.
  destruct (doc !! j) eqn:Hl; [by eapply lookup_lt_Some|].
  by destruct H.
Qed.

(** One run of [loadAllImages] leaves each element as the callback
    leaves it; an [img] without [data-load] is not visited, and the
    callback would not change it either. *)
Lemma loadAllImages_lookup env doc j :
  loadAllImages env doc !! j = loadAllImages_callback env <$> doc !! j.
Proof.
  unfold loadAllImages.
  destruct (decide (j ∈ querySelectorAll_img_data_load doc)) as [Hj|Hj].
  - apply forEach_lookup_in; [apply querySelectorAll_NoDup | done].
  - rewrite forEach_lookup_notin by done.
    rewrite querySelectorAll_elem in Hj.
    destruct (doc !! j) as [img|]; [|done]. simpl in *.
    unfold loadAllImages_callback.
    destruct (data_load img); [by destruct Hj|].
    by destruct (bool_decide _).
Qed.

Lemma loadAllImages_fmap env doc :
  loadAllImages env doc = loadAllImages_callback env <$> doc.
Proof.
  apply list_eq. intros j. by rewrite loadAllImages_lookup, list_lookup_fmap.
Qed.

(** The callback returns at once on an element it has already marked. *)
Lemma loadAllImages_callback_loaded env img :
  data_loaded img = Some "true" → loadAllImages_callback env img = img.
Proof.
  intros H. unfold loadAllImages_callback. by rewrite bool_decide_eq_true_2.
Qed.

Lemma loadAllImages_callback_twice env env' img :
  loadAllImages_callback env' (loadAllImages_callback env img)
  = loadAllImages_callback env img.
Proof.
  unfold loadAllImages_callback at 2 3.
  destruct (bool_decide (data_loaded img = Some "true")) eqn:Hl.
  - apply loadAllImages_callback_loaded. by apply bool_decide_eq_true in Hl.
  - destruct (data_load img) as [d|] eqn:Hd.
    + destruct (JS.truthy d) eqn:Ht; simpl.
      * by apply loadAllImages_callback_loaded.
      * unfold loadAllImages_callback. by rewrite Hl, Hd, Ht.
    + unfold loadAllImages_callback. by rewrite Hl, Hd.
Qed.

End scan.

(** C8: after one run of [loadAllImages], an element with a non-empty
    [data-load] whose loaded flag was not "true" has the resolved path as
    its [src], the three style properties set to "block", "visible" and
    "1", and its loaded flag set to "true". *)
Theorem loadAllImages_activates
    (env : Env) (doc : list Img) (i : nat) (img : Img) (declared : string) :
  doc !! i = Some img →
  data_load img = Some declared →
  declared ≠ "" →
  data_loaded img ≠ Some "true" →
  ∃ img', loadAllImages env doc !! i = Some img'
    ∧ src img' = Some (fixImagePath env declared)
    ∧ style_display img' = "block"
    ∧ style_visibility img' = "visible"
    ∧ style_opacity img' = "1"
    ∧ data_loaded img' = Some "true".
Proof.
  intros Hi Hd Hne Hl.
  rewrite loadAllImages_lookup, Hi. simpl.
  eexists. split; [reflexivity|].
  unfold loadAllImages_callback.
  rewrite bool_decide_eq_false_2 by done. rewrite Hd.
  apply String.eqb_neq in Hne. unfold JS.truthy. rewrite Hne. simpl.
  done.
Qed.

(** C10: an element whose loaded flag is "true" is left as it is, and a
    run of [loadAllImages] on the document a previous run produced
    changes nothing, so the initial run followed by the three delayed
    runs assigns each [src] at most once. *)
Theorem loadAllImages_run_once (env : Env) (doc : list Img) :
  (∀ i img, doc !! i = Some img → data_loaded img = Some "true" →
            loadAllImages env doc !! i = Some img)
  ∧ loadAllImages env (loadAllImages env doc) = loadAllImages env doc
  ∧ loadAllImages env
      (loadAllImages env (loadAllImages env (loadAllImages env doc)))
    = loadAllImages env doc.
Proof.
  assert (Hrun : ∀ d, loadAllImages env (loadAllImages env d)
                      = loadAllImages env d).
  { intros d. rewrite !loadAllImages_fmap, <- list_fmap_compose.
    apply list_fmap_ext. intros _ img _.
    apply loadAllImages_callback_twice. }
  split; [|split].
  - intros i img Hi Hl. rewrite loadAllImages_lookup, Hi. simpl.
    by rewrite loadAllImages_callback_loaded.
  - apply Hrun.
  - by rewrite !Hrun.
Qed.

Lemma loadAllImages_activates_witness :
  ∃ img', loadAllImages (page "/explore/game/2048.html")
            [placeholder "/images/a.png"] !! 0%nat = Some img'
    ∧ src img' = Some (fixImagePath (page "/explore/game/2048.html")
                                    "/images/a.png")
    ∧ style_display img' = "block"
    ∧ style_visibility img' = "visible"
    ∧ style_opacity img' = "1"
    ∧ data_loaded img' = Some "true".
Proof.
  apply (loadAllImages_activates (page "/explore/game/2048.html")
           [placeholder "/images/a.png"] 0 (placeholder "/images/a.png")
           "/images/a.png");
    [reflexivity | reflexivity | discriminate | discriminate].
Defined.

Lemma loadAllImages_run_once_witness :
  loadAllImages (page "/index.html")
    (loadAllImages (page "/index.html") [placeholder "/images/a.png"]) !! 0%nat
  = loadAllImages (page "/index.html") [placeholder "/images/a.png"] !! 0%nat.
Proof.
  destruct (loadAllImages_run_once (page "/index.html")
              (loadAllImages (page "/index.html") [placeholder "/images/a.png"]))
    as [Hskip _].
  apply (Hskip 0%nat); reflexivity.
Defined.

(** ** The error handler *)

Section recovery.
Variable env : Env.

(** A declared path that starts with "/images/" never equals its
    resolved form and does not start with "http", so the handler that
    [loadAllImages] installs for it takes the first branch: the
    "explore" fallback of lines 190-196 is not reached. *)
Lemma explore_fallback_unreachable (declared : string) (this : Img) :
  JS.startsWith declared "/images/" = true →
  onerror_handler {| dataLoadPath := declared;
                     fixedPath := fixImagePath env declared |} this
  = (set_src declared this, [fixImagePath env declared; declared]).
Proof.
  intros H. unfold onerror_handler. simpl.
  assert (Hs : JS.startsWith declared "/" = true)
    by (by rewrite (startsWith_append _ _ H), !append_cons).
  pose proof Hs as H'.
  assert (Hh : JS.startsWith declared "http" = false)
    by (by rewrite (startsWith_append _ _ H), !append_cons).
  destruct (String.eqb_spec declared (fixImagePath env declared)) as [Heq|_].
  - apply startsWith_slash in Hs as [r ->].
    rewrite Heq, absolute_result_no_slash in H'. discriminate.
  - by rewrite Hh.
Qed.

End recovery.

(** C7, as the code has it: the handler assigns the original declared
    path when it differs from the attempted path and does not start with
    "http"; it assigns "explore" + path only for a path that starts with
    "/images/"; it makes no other assignment to [src]. *)
Theorem onerror_handler_policy (c : Closure) (this : Img) :
  let original := dataLoadPath c in
  let attempted := fixedPath c in
  (original ≠ attempted → JS.startsWith original "http" = false →
   onerror_handler c this = (set_src original this, [attempted; original]))
  ∧ (onerror_handler c this = (this, [attempted])
     ∨ onerror_handler c this = (set_src original this, [attempted; original])
     ∨ (JS.startsWith original "/images/" = true
        ∧ onerror_handler c this
          = (set_src ("explore" +:+ original) this,
             [attempted; "explore" +:+ original]))).
Proof.
  intros original attempted. unfold onerror_handler.
  fold original. fold attempted. split.
  - intros Hne Hh. apply String.eqb_neq in Hne. by rewrite Hne, Hh.
  - destruct (negb (original =? attempted)%string
              && negb (JS.startsWith original "http")); [auto|].
    destruct (JS.startsWith original "/images/"); [|auto].
    destruct (JS.indexOf [attempted] ("explore" +:+ original) =? -1); auto.
Qed.

Lemma onerror_handler_policy_witness :
  onerror_handler {| dataLoadPath := "/images/a.png";
                     fixedPath := "images/a.png" |}
                  (placeholder "/images/a.png")
  = (set_src "/images/a.png" (placeholder "/images/a.png"),
     ["images/a.png"; "/images/a.png"]).
Proof.
  apply (onerror_handler_policy
           {| dataLoadPath := "/images/a.png"; fixedPath := "images/a.png" |}
           (placeholder "/images/a.png"));
    [discriminate | reflexivity].
Defined.

(** C7 as stated fails: on a page under explore/ the declared path
    "http.png" resolves to "images/http.png", which differs from it, yet
    the handler does not assign the declared path, because that path
    starts with "http". *)
Lemma onerror_handler_http_counterexample :
  ¬ (∀ env declared,
       declared ≠ "" →
       declared ≠ fixImagePath env declared →
       src (error_event (loadAllImages_callback env (placeholder declared)))
       = Some declared).
Proof.
  intros H.
  assert (Hsrc : src (error_event
                        (loadAllImages_callback (page "/explore/index.html")
                                                (placeholder "http.png")))
                 = Some "http.png")
    by (apply H; [discriminate | vm_compute; discriminate]).
  vm_compute in Hsrc. discriminate.
Qed.

(** ** Splitting an address into segments *)

Section splitting.
Implicit Types (s r x : string) (l : list string) (c a : ascii).

Lemma append_empty_r s : s +:+ "" = s.
Proof. induction s as [|a s IH]; [done|]. by rewrite append_cons, IH. Qed.

Lemma prefix_empty s : String.prefix "" s = true.
Proof. by destruct s. Qed.

Lemma includes_char_cons c a s :
  includes (String c "") (String a s)
  = bool_decide (c = a) || includes (String c "") s.
Proof.
  simpl. destruct (ascii_dec c a) as [->|Hne].
  - by rewrite prefix_empty, bool_decide_eq_true_2.
  - by rewrite bool_decide_eq_false_2.
Qed.

Lemma eqb_slash a : Ascii.eqb a "/" = bool_decide ("/"%char = a).
Proof.
  destruct (Ascii.eqb_spec a "/") as [->|Hne].
  - by rewrite bool_decide_eq_true_2.
  - by rewrite bool_decide_eq_false_2.
Qed.

Lemma split_not_nil s : JS.split s ≠ [].
Proof.
  destruct s as [|a s]; simpl; [done|].
  destruct (Ascii.eqb a "/"); [done|]. by destruct (JS.split s).
Qed.

(** No piece of a split contains the separator. *)
Lemma split_slash_free s x : x ∈ JS.split s → includes "/" x = false.
Proof.
  revert x. induction s as [|a s IH]; intros x; simpl.
  - intros ->%list_elem_of_singleton. reflexivity.
  - rewrite eqb_slash. case_bool_decide as Ha.
    + intros [->|Hx]%elem_of_cons; [reflexivity | by apply IH].
    + destruct (JS.split s) as [|h t] eqn:Hs; [by destruct (split_not_nil s)|].
      intros [->|Hx]%elem_of_cons.
      * rewrite includes_char_cons, bool_decide_eq_false_2 by done.
        apply IH. left.
      * apply IH. by right.
Qed.

(** A character of a piece is a character of the string that was split. *)
Lemma split_char c s x :
  x ∈ JS.split s → includes (String c "") x = true →
  includes (String c "") s = true.
Proof.
  revert x. induction s as [|a s IH]; intros x; simpl JS.split.
  - by intros ->%list_elem_of_singleton.
  - rewrite includes_char_cons. destruct (Ascii.eqb a "/").
    + intros [->|Hx]%elem_of_cons; [done|].
      intros H. rewrite (IH x Hx H). apply orb_true_r.
    + destruct (JS.split s) as [|h t] eqn:Hs; [by destruct (split_not_nil s)|].
      intros [->|Hx]%elem_of_cons.
      * rewrite includes_char_cons. intros [H|H]%orb_true_iff.
        -- by rewrite H.
        -- rewrite (IH h); [apply orb_true_r | left | done].
      * intros H. rewrite (IH x); [apply orb_true_r | by right | done].
Qed.

Lemma backslashes_to_slashes_free s :
  includes "\" (JS.backslashes_to_slashes s) = false.
Proof.
  induction s as [|a s IH]; [done|].
  simpl JS.backslashes_to_slashes. rewrite includes_char_cons, IH.
  rewrite orb_false_r. apply bool_decide_eq_false_2.
  destruct (Ascii.eqb_spec a "\") as [->|Hne]; [done | congruence].
Qed.

Lemma removelast_elem l x : x ∈ removelast l → x ∈ l.
Proof.
  induction l as [|y l IH]; [done|]. simpl.
  destruct l as [|z l]; [by intros ?%elem_of_nil|].
  intros [->|H]%elem_of_cons; [left | right; by apply IH].
Qed.

Lemma pop_html_elem l x : x ∈ JS.pop_html l → x ∈ l.
Proof.
  unfold JS.pop_html. destruct (_ && _); [apply removelast_elem | done].
Qed.

Lemma truthy_true x : JS.truthy x = true ↔ x ≠ "".
Proof.
  unfold JS.truthy. rewrite negb_true_iff. apply String.eqb_neq.
Qed.

End splitting.

(** ** The segments of a location *)

(** X1: whatever the address, no segment that [getFileLocation] returns
    is empty or contains "/"; and when the address was read as a local
    file, no segment contains a backslash either. *)
Theorem getFileLocation_segments (env : Env) (seg : string) :
  seg ∈ parts (getFileLocation env) →
  seg ≠ "" ∧ includes "/" seg = false
  ∧ (isFileProtocol (getFileLocation env) = true → includes "\" seg = false).
Proof.
  assert (Hhttp : ∀ s, seg ∈ JS.pop_html
                           (filter (λ p, JS.truthy p = true) (JS.split s)) →
                       seg ≠ "" ∧ includes "/" seg = false).
  { intros s [Ht Hs]%pop_html_elem%list_elem_of_filter.
    split; [by apply truthy_true | by eapply split_slash_free]. }
  assert (Hh : seg ∈ parts (getFileLocation_http env) →
               seg ≠ "" ∧ includes "/" seg = false
               ∧ (isFileProtocol (getFileLocation_http env) = true →
                  includes "\" seg = false)).
  { unfold getFileLocation_http, getFileLocation_fallback.
    destruct (URL_pathname env (href env)); simpl;
      intros [? ?]%Hhttp; by repeat split. }
  unfold getFileLocation.
  destruct (JS.startsWith (href env) "file://"); [|done].
  destruct (decodeURIComponent env _) as [filePath|]; [|done]. simpl.
  intros [Ht Hs%pop_html_elem]%list_elem_of_filter.
  split; [by apply truthy_true|]. split; [by eapply split_slash_free|].
  intros _. apply not_true_iff_false. intros Hb.
  apply (split_char _ _ _ Hs) in Hb.
  by rewrite backslashes_to_slashes_free in Hb.
Qed.

Lemma getFileLocation_segments_witness :
  "explore" ≠ "" ∧ includes "/" "explore" = false
  ∧ (isFileProtocol (getFileLocation (page "/explore/game/2048.html")) = true →
     includes "\" "explore" = false).
Proof.
  apply (getFileLocation_segments (page "/explore/game/2048.html") "explore").
  compute_done.
Defined.

Section round_trip.
Implicit Types (s r d q : string) (l segs dirs : list string).

Lemma segment_true s : segment s = true ↔ s ≠ "" ∧ includes "/" s = false.
Proof.
  unfold segment. by rewrite andb_true_iff, negb_true_iff, truthy_true.
Qed.

Lemma split_segment_app d r :
  includes "/" d = false →
  JS.split (d +:+ r) = match JS.split r with
                       | h :: t => (d +:+ h) :: t
                       | [] => [d]
                       end.
Proof.
  induction d as [|a d IH]; intros Hd.
  - rewrite append_nil.
    destruct (JS.split r) as [|h t] eqn:Hr; [by destruct (split_not_nil r)|].
    by rewrite append_nil.
  - rewrite includes_char_cons in Hd. apply orb_false_iff in Hd as [Ha Hd].
    rewrite append_cons. simpl JS.split. rewrite eqb_slash, Ha, (IH Hd).
    destruct (JS.split r) as [|h t] eqn:Hr; [by destruct (split_not_nil r)|].
    by rewrite append_cons.
Qed.

Lemma split_path_of segs :
  Forall (λ s, segment s = true) segs →
  JS.split (path_of segs) = match segs with [] => [""] | _ => "" :: segs end.
Proof.
  induction 1 as [|seg segs Hseg _ IH]; [done|].
  apply segment_true in Hseg as [_ Hseg].
  change (path_of (seg :: segs)) with (String "/" (seg +:+ path_of segs)).
  simpl JS.split. rewrite (split_segment_app _ _ Hseg), IH.
  by destruct segs; rewrite append_empty_r.
Qed.

Lemma filter_segments segs :
  Forall (λ s, segment s = true) segs →
  filter (λ p, JS.truthy p = true) segs = segs.
Proof.
  induction 1 as [|seg segs Hseg _ IH]; [done|].
  rewrite filter_cons_True, IH; [done|].
  apply segment_true in Hseg as [Hne _]. by apply truthy_true.
Qed.

Lemma segments_of_path segs :
  Forall (λ s, segment s = true) segs →
  filter (λ p, JS.truthy p = true) (JS.split (path_of segs)) = segs.
Proof.
  intros H. rewrite (split_path_of _ H). destruct segs as [|seg segs]; [done|].
  rewrite filter_cons_False by (by intros ?). by apply filter_segments.
Qed.

Lemma or_empty s : JS.or s "" = s.
Proof. unfold JS.or, JS.truthy. by destruct (String.eqb_spec s "") as [->|]. Qed.

Lemma pop_html_file dirs file :
  JS.endsWith file ".html" = true → JS.pop_html (dirs ++ [file]) = dirs.
Proof.
  intros H. unfold JS.pop_html.
  rewrite List.last_last, H, length_app, List.removelast_last. simpl.
  rewrite andb_true_r.
  by destruct (Z.ltb_spec 0 (Z.of_nat (length dirs + 1))); [|lia].
Qed.

Lemma pop_html_other l :
  JS.endsWith (List.last l "") ".html" = false → JS.pop_html l = l.
Proof. intros H. unfold JS.pop_html. by rewrite H, andb_false_r. Qed.

End round_trip.

(** X2: on a page that is not a local file and whose address path is "/"
    followed by segment names joined by "/", [getFileLocation] returns
    those names, minus the last one when it ends in ".html".  So a page
    [file] in the directories [dirs] has the segments [dirs], and an
    address whose last name does not end in ".html" keeps every name.
    The same holds when the address does not parse and [pathname] is
    used instead. *)
Theorem getFileLocation_round_trip (env : Env) (segs : list string) :
  Forall (λ s, segment s = true) segs →
  JS.startsWith (href env) "file://" = false →
  URL_pathname env (href env) = Some (path_of segs)
  ∨ (URL_pathname env (href env) = None ∧ pathname env = path_of segs) →
  parts (getFileLocation env) = JS.pop_html segs
  ∧ (∀ dirs file, segs = dirs ++ [file] → JS.endsWith file ".html" = true →
       parts (getFileLocation env) = dirs)
  ∧ (JS.endsWith (List.last segs "") ".html" = false →
       parts (getFileLocation env) = segs).
Proof.
  intros Hsegs Hfile Hpath.
  assert (Hparts : parts (getFileLocation env) = JS.pop_html segs).
  { unfold getFileLocation, getFileLocation_http, getFileLocation_fallback.
    rewrite Hfile.
    destruct Hpath as [-> | [-> ->]]; simpl;
      by rewrite ?or_empty, segments_of_path. }
  rewrite Hparts. split; [done|]. split.
  - intros dirs file -> Hhtml. by apply pop_html_file.
  - apply pop_html_other.
Qed.

Lemma getFileLocation_round_trip_witness :
  parts (getFileLocation (page "/explore/game/2048.html")) = ["explore"; "game"].
Proof.
  destruct (getFileLocation_round_trip (page "/explore/game/2048.html")
              ["explore"; "game"; "2048.html"]) as (_ & Hfile & _).
  - by repeat constructor.
  - reflexivity.
  - left. reflexivity.
  - apply (Hfile ["explore"; "game"] "2048.html"); reflexivity.
Defined.

(** ** Local files and served pages *)

Section pop_and_filter.
Implicit Types (s q : string) (l : list string).

Lemma filter_keeps_last l :
  List.last l "" ≠ "" →
  filter (λ p, JS.truthy p = true) l ≠ []
  ∧ List.last (filter (λ p, JS.truthy p = true) l) "" = List.last l ""
  ∧ removelast (filter (λ p, JS.truthy p = true) l)
    = filter (λ p, JS.truthy p = true) (removelast l).
Proof.
  induction l as [|y l IH]; [done|].
  destruct l as [|z l].
  - simpl. intros Hy. by rewrite filter_cons_True by by apply truthy_true.
  - intros Hl. change (List.last (y :: z :: l) "") with (List.last (z :: l) "") in *.
    destruct (IH Hl) as (Hne & Hlast & Hrem).
    change (removelast (y :: z :: l)) with (y :: removelast (z :: l)).
    destruct (decide (JS.truthy y = true)) as [Hy|Hy].
    + rewrite !filter_cons_True by done.
      destruct (filter (λ p, JS.truthy p = true) (z :: l)) as [|w fl]; [done|].
      split; [discriminate|]. split; [exact Hlast|].
      change (removelast (y :: w :: fl)) with (y :: removelast (w :: fl)).
      by rewrite Hrem, (filter_cons_True _ y) by done.
    + rewrite filter_cons_False by done.
      split; [exact Hne|]. split; [exact Hlast|].
      by rewrite (filter_cons_False _ y) by done.
Qed.

(** Dropping the file name and dropping the empty pieces commute when the
    last piece is not empty. *)
Lemma filter_pop_html l :
  List.last l "" ≠ "" →
  filter (λ p, JS.truthy p = true) (JS.pop_html l)
  = JS.pop_html (filter (λ p, JS.truthy p = true) l).
Proof.
  intros Hl. destruct (filter_keeps_last l Hl) as (Hne & Hlast & Hrem).
  unfold JS.pop_html. rewrite Hlast, Hrem.
  assert ((0 <? Z.of_nat (length l)) = true) as ->.
  { destruct l; [done|]. apply Z.ltb_lt. simpl. lia. }
  assert ((0 <? Z.of_nat (length (filter (λ p, JS.truthy p = true) l)))
          = true) as ->.
  { destruct (filter _ l); [done|]. apply Z.ltb_lt. simpl. lia. }
  by destruct (_ && _).
Qed.

Lemma endsWith_slash_cons a s :
  s ≠ "" → JS.endsWith (String a s) "/" = JS.endsWith s "/".
Proof.
  destruct s as [|b s]; [done|]. intros _. unfold JS.endsWith.
  change (String.length "/") with 1%nat. cbn [String.length].
  replace (S (S (String.length s)) - 1)%nat with (S (String.length s)) by lia.
  replace (S (String.length s) - 1)%nat with (String.length s) by lia.
  reflexivity.
Qed.

Lemma split_last_empty q :
  List.last (JS.split q) "" = "" → q = "" ∨ JS.endsWith q "/" = true.
Proof.
  induction q as [|a q IH]; intros H; [by left|]. right. simpl JS.split in H.
  destruct (JS.split q) as [|h t] eqn:Hq; [by destruct (split_not_nil q)|].
  destruct (Ascii.eqb_spec a "/") as [->|Hne].
  - change (List.last ("" :: h :: t) "") with (List.last (h :: t) "") in H.
    destruct (IH H) as [->|Hq']; [done|].
    rewrite endsWith_slash_cons; [done|]. by intros ->.
  - destruct t as [|h' t]; [done|].
    change (List.last (String a h :: h' :: t) "")
      with (List.last (h :: h' :: t) "") in H.
    destruct (IH H) as [->|Hq']; [done|].
    rewrite endsWith_slash_cons; [done|]. by intros ->.
Qed.

End pop_and_filter.

(** X3: the branch for local files drops the file name before the empty
    pieces, the branch for served pages after.  For the same path the
    two give the same segments as long as the path does not end in "/";
    backslashes in the local path count as separators. *)
Theorem getFileLocation_file_and_http
    (local served : Env) (filePath : string) :
  JS.startsWith (href local) "file://" = true →
  decodeURIComponent local (JS.strip_prefix "file:///" (href local))
  = Some filePath →
  JS.startsWith (href served) "file://" = false →
  URL_pathname served (href served)
  = Some ("/" +:+ JS.backslashes_to_slashes filePath) →
  JS.endsWith (JS.backslashes_to_slashes filePath) "/" = false →
  parts (getFileLocation local) = parts (getFileLocation served).
Proof.
  intros Hl Hdec Hs Hurl Hend.
  unfold getFileLocation, getFileLocation_http. rewrite Hl, Hdec, Hs, Hurl.
  simpl parts. set (q := JS.backslashes_to_slashes filePath) in *.
  change (JS.split ("/" +:+ q)) with ("" :: JS.split q).
  rewrite filter_cons_False by (by intros ?).
  destruct (decide (List.last (JS.split q) "" = "")) as [Hlast|Hlast].
  - destruct (split_last_empty q Hlast) as [->|Hq]; [done | congruence].
  - by apply filter_pop_html.
Qed.

Lemma getFileLocation_file_and_http_witness :
  parts (getFileLocation (local_page "C:\site\explore\index.html"))
  = parts (getFileLocation (page "/C:/site/explore/index.html")).
Proof.
  apply (getFileLocation_file_and_http
           (local_page "C:\site\explore\index.html")
           (page "/C:/site/explore/index.html")
           "C:\site\explore\index.html"); reflexivity.
Defined.

(** What the hypothesis of X3 excludes: a path that ends in "/" behind a
    name in ".html" keeps that name as a segment when read as a local
    file and loses it when served. *)
Lemma file_and_http_trailing_slash :
  parts (getFileLocation (local_page "site/a.html/")) = ["site"; "a.html"]
  ∧ parts (getFileLocation (page "/site/a.html/")) = ["site"].
Proof. split; reflexivity. Qed.

(** ** Resolving twice, and equivalent spellings *)

Section stability.
Variable env : Env.
Implicit Types p r t : string.

Lemma scheme_unchanged p :
  JS.startsWith p "http://" || JS.startsWith p "https://" = true →
  fixImagePath env p = p.
Proof. intros H. unfold fixImagePath. by rewrite H. Qed.

Lemma parent_prefixed_stable t :
  fixImagePath env ("../" +:+ t) = "../" +:+ t.
Proof. apply parent_relative_unchanged, startsWith_of_append. Qed.

Lemma images_prefixed_stable t :
  fixImagePath env ("images/" +:+ t) = "images/" +:+ t.
Proof.
  rewrite fixImagePath_bare; try by rewrite !append_cons.
  cbv zeta. by rewrite startsWith_of_append.
Qed.

Lemma bare_cases p :
  JS.startsWith p "http://" || JS.startsWith p "https://" = false →
  JS.startsWith p "/" = false → JS.startsWith p "../" = false →
  JS.startsWith p "./" = false →
  fixImagePath env p = p
  ∨ fixImagePath env p = "images/" +:+ p
  ∨ fixImagePath env p = "../../images/" +:+ p.
Proof.
  intros [H1 H2]%orb_false_iff H3 H4 H5.
  rewrite (fixImagePath_bare env p H1 H2 H3 H4 H5). cbv zeta.
  destruct (JS.startsWith p "images/"); [auto|].
  destruct (_ && _); [auto|]. destruct (isInExploreGame _); auto.
Qed.

End stability.

(** X4: in one and the same context a resolved path resolves to itself,
    for every input that does not start with "./": the result of
    [fixImagePath] is a fixed point of [fixImagePath]. *)
Theorem fixImagePath_stable (env : Env) (path : string) :
  JS.startsWith path "./" = false →
  fixImagePath env (fixImagePath env path) = fixImagePath env path.
Proof.
  intros Hdot.
  destruct (JS.startsWith path "http://" || JS.startsWith path "https://")
    eqn:Hscheme.
  { rewrite (scheme_unchanged env path Hscheme).
    exact (scheme_unchanged env path Hscheme). }
  destruct (JS.startsWith path "/") eqn:Hslash.
  { apply startsWith_slash in Hslash as [r ->].
    rewrite fixImagePath_absolute.
    set (t := JS.strip_prefix "images/" r).
    unfold absolute_prefix. set (l := parts (getFileLocation env)).
    destruct (isInExploreGame l) eqn:Heg;
      [apply (parent_prefixed_stable env ("../images/" +:+ t))|].
    destruct (isInExplore l) eqn:He; [apply images_prefixed_stable|].
    destruct (isInRootGame l);
      [apply (parent_prefixed_stable env ("explore/images/" +:+ t))|].
    rewrite fixImagePath_bare; try by rewrite !append_cons.
    cbv zeta. fold l. rewrite He, Heg. reflexivity. }
  destruct (JS.startsWith path "../") eqn:Hparent.
  { destruct (parent_relative_unchanged env path Hparent) as [H _].
    rewrite H. exact H. }
  destruct (bare_cases env path Hscheme Hslash Hparent Hdot)
    as [H | [H | H]]; rewrite H.
  - exact H.
  - apply images_prefixed_stable.
  - apply (parent_prefixed_stable env ("../images/" +:+ path)).
Qed.

Lemma fixImagePath_stable_witness :
  fixImagePath (page "/game/2048.html")
    (fixImagePath (page "/game/2048.html") "/logo.png")
  = fixImagePath (page "/game/2048.html") "/logo.png".
Proof.
  apply (fixImagePath_stable (page "/game/2048.html") "/logo.png").
  reflexivity.
Defined.

(** Without the hypothesis of X4: "././a.png" on a root page resolves to
    "./a.png", and that to "a.png". *)
Lemma fixImagePath_dot_slash_unstable :
  fixImagePath (page "/index.html")
    (fixImagePath (page "/index.html") "././a.png")
  ≠ fixImagePath (page "/index.html") "././a.png".
Proof. vm_compute. discriminate. Qed.

(** X5: a leading "./" is dropped and the rest is handled as a bare
    relative path; a rest that starts with "../" is returned as it is. *)
Theorem fixImagePath_dot_slash (env : Env) (rest : string) :
  (bare rest = true →
   fixImagePath env ("./" +:+ rest) = fixImagePath env rest)
  ∧ (JS.startsWith rest "../" = true →
     fixImagePath env ("./" +:+ rest) = rest).
Proof.
  assert (Hstrip : JS.startsWith ("./" +:+ rest) "./" = true)
    by apply startsWith_of_append.
  assert (Hsub : JS.substring 2 ("./" +:+ rest) = rest) by done.
  split.
  - intros Hbare. unfold bare in Hbare.
    rewrite !andb_true_iff, !negb_true_iff in Hbare.
    destruct Hbare as [[[[H1 H2] H3] H4] H5].
    rewrite (fixImagePath_bare env rest H1 H2 H3 H4 H5).
    unfold fixImagePath at 1. rewrite Hstrip, Hsub.
    rewrite !append_cons, append_nil. simpl. rewrite H4. simpl.
    by destruct (JS.startsWith rest "images/").
  - intros H. unfold fixImagePath. rewrite Hstrip, Hsub.
    rewrite !append_cons, append_nil. simpl. by rewrite H.
Qed.

Lemma fixImagePath_dot_slash_witness :
  fixImagePath (page "/explore/index.html") "./a.png"
  = fixImagePath (page "/explore/index.html") "a.png".
Proof.
  apply (fixImagePath_dot_slash (page "/explore/index.html") "a.png").
  reflexivity.
Defined.

(** X6: the "images/" directory in front of an absolute path is
    optional: "/images/" + rest and "/" + rest resolve to the same string
    when rest does not itself start with "images/". *)
Theorem fixImagePath_images_optional (env : Env) (rest : string) :
  JS.startsWith rest "images/" = false →
  fixImagePath env ("/images/" +:+ rest) = fixImagePath env ("/" +:+ rest)
  ∧ fixImagePath env ("/" +:+ rest)
    = absolute_prefix (parts (getFileLocation env)) +:+ rest.
Proof.
  intros H.
  change ("/images/" +:+ rest) with (String "/" ("images/" +:+ rest)).
  change ("/" +:+ rest) with (String "/" rest).
  by rewrite !fixImagePath_absolute, strip_prefix_append, strip_prefix_other.
Qed.

Lemma fixImagePath_images_optional_witness :
  fixImagePath (page "/game/2048.html") ("/images/" +:+ "a.png")
  = fixImagePath (page "/game/2048.html") ("/" +:+ "a.png")
  ∧ fixImagePath (page "/game/2048.html") ("/" +:+ "a.png")
    = absolute_prefix (parts (getFileLocation (page "/game/2048.html")))
      +:+ "a.png".
Proof.
  apply (fixImagePath_images_optional (page "/game/2048.html") "a.png").
  reflexivity.
Defined.

(** ** Deeper directories *)

Section deeper.
Implicit Types (l extra : list string) (x : string).

Lemma indexOf_from_absent x l k : x ∉ l → JS.indexOf_from x l k = -1.
Proof.
  intros Hx. destruct (indexOf_from_spec x l k) as [[_ H]|(i & Hi & _)]; [done|].
  by apply first_at_elem in Hi.
Qed.

(** Segments behind the first occurrence of a name do not move it. *)
Lemma indexOf_from_app x l extra k :
  x ∈ l ∨ x ∉ extra →
  JS.indexOf_from x (l ++ extra) k = JS.indexOf_from x l k.
Proof.
  revert k. induction l as [|y l IH]; intros k H.
  - destruct H as [H|H]; [by apply elem_of_nil in H|].
    by apply indexOf_from_absent.
  - simpl. destruct (String.eqb_spec y x) as [->|Hne]; [done|].
    apply IH. destruct H as [H|H]; [|by right].
    apply elem_of_cons in H as [->|H]; [done | by left].
Qed.

Lemma classification_app l extra :
  "explore" ∈ l ∨ "explore" ∉ extra →
  "game" ∈ l ∨ "game" ∉ extra →
  isInExplore (l ++ extra) = isInExplore l
  ∧ isInExploreGame (l ++ extra) = isInExploreGame l
  ∧ isInRootGame (l ++ extra) = isInRootGame l.
Proof.
  intros He Hg. unfold isInExploreGame, isInRootGame, isInExplore.
  rewrite !exploreIndex_indexOf, !gameIndex_indexOf. unfold JS.indexOf.
  by rewrite !indexOf_from_app.
Qed.

End deeper.

(** X7: the result does not depend on how deep the page lies.  If the
    segments of one page are those of another followed by further
    directories, and these do not bring a first "explore" or a first
    "game", both pages resolve every path to the same string. *)
Theorem fixImagePath_depth_blind
    (env deeper : Env) (extra : list string) (path : string) :
  parts (getFileLocation deeper) = parts (getFileLocation env) ++ extra →
  "explore" ∈ parts (getFileLocation env) ∨ "explore" ∉ extra →
  "game" ∈ parts (getFileLocation env) ∨ "game" ∉ extra →
  fixImagePath deeper path = fixImagePath env path.
Proof.
  intros Hparts He Hg.
  destruct (classification_app _ _ He Hg) as (H1 & H2 & H3).
  unfold fixImagePath. by rewrite Hparts, H1, H2, H3.
Qed.

Lemma fixImagePath_depth_blind_witness :
  fixImagePath (page "/explore/game/level/one/play.html") "/images/a.png"
  = fixImagePath (page "/explore/game/2048.html") "/images/a.png".
Proof.
  apply (fixImagePath_depth_blind (page "/explore/game/2048.html")
           (page "/explore/game/level/one/play.html") ["level"; "one"]
           "/images/a.png"); [reflexivity | left | left]; compute_done.
Defined.

(** ** Load failures *)

Section failures.
Variable env : Env.
Implicit Types (d : string) (this img : Img).

(** A declared path that starts with "/images/" passes the test of the
    first branch of the handler. *)
Lemma images_path_retried d :
  JS.startsWith d "/images/" = true →
  negb (String.eqb d (fixImagePath env d)) && negb (JS.startsWith d "http")
  = true.
Proof.
  intros H.
  assert (Hh : JS.startsWith d "http" = false)
    by (by rewrite (startsWith_append _ _ H), !append_cons).
  rewrite Hh, andb_true_r, negb_true_iff. apply String.eqb_neq. intros Heq.
  assert (Hs : JS.startsWith d "/" = true)
    by (by rewrite (startsWith_append _ _ H), !append_cons).
  pose proof Hs as Hs'. apply startsWith_slash in Hs as [r ->].
  rewrite Heq, absolute_result_no_slash in Hs'. discriminate.
Qed.

Lemma installed_handler d this :
  onerror_handler {| dataLoadPath := d; fixedPath := fixImagePath env d |} this
  = if negb (String.eqb d (fixImagePath env d))
       && negb (JS.startsWith d "http")
    then (set_src d this, [fixImagePath env d; d])
    else (this, [fixImagePath env d]).
Proof.
  unfold onerror_handler. simpl.
  destruct (negb (String.eqb d (fixImagePath env d))
            && negb (JS.startsWith d "http")) eqn:Hc; [done|].
  destruct (JS.startsWith d "/images/") eqn:Hi; [|done].
  by rewrite images_path_retried in Hc.
Qed.

End failures.

(** X8: for a handler that [loadAllImages] installed, a load failure
    assigns the declared path when it differs from the resolved one and
    does not start with "http", and otherwise assigns nothing: the
    "explore" fallback of lines 190-196 is never taken.  The element is
    left exactly as the shorter handler of part_000 leaves it. *)
Theorem onerror_installed (env : Env) (declared : string) (this : Img) :
  let c := {| dataLoadPath := declared;
              fixedPath := fixImagePath env declared |} in
  onerror_handler c this
  = (if negb (String.eqb declared (fixImagePath env declared))
        && negb (JS.startsWith declared "http")
     then (set_src declared this, [fixImagePath env declared; declared])
     else (this, [fixImagePath env declared]))
  ∧ (onerror_handler c this).1 = Part000.onerror_handler c this.
Proof.
  intros c. unfold c. rewrite installed_handler.
  split; [done|]. unfold Part000.onerror_handler. simpl.
  by destruct (_ && _).
Qed.

(** What the handler does to an element depends on its closure only. *)
Lemma onerror_handler_uniform (c : Closure) :
  (∀ x, (onerror_handler c x).1 = x)
  ∨ ∃ s, ∀ x, (onerror_handler c x).1 = set_src s x.
Proof.
  unfold onerror_handler.
  destruct (_ && _); [right; eauto|].
  destruct (JS.startsWith _ "/images/"); [|by left].
  destruct (_ =? -1); [right; eauto | by left].
Qed.

(** X9: a load failure changes nothing of an element but its [src], and
    a second failure of the same element leaves it as the first did: the
    handler has no further candidate to try. *)
Theorem error_event_only_src (this : Img) :
  data_load (error_event this) = data_load this
  ∧ data_loaded (error_event this) = data_loaded this
  ∧ style_display (error_event this) = style_display this
  ∧ style_visibility (error_event this) = style_visibility this
  ∧ style_opacity (error_event this) = style_opacity this
  ∧ onload (error_event this) = onload this
  ∧ onerror (error_event this) = onerror this
  ∧ error_event (error_event this) = error_event this.
Proof.
  destruct (onerror this) as [c|] eqn:Hc.
  - destruct (onerror_handler_uniform c) as [Hid | [s Hs]].
    + assert (H : error_event this = this)
        by (unfold error_event; by rewrite Hc, Hid).
      by rewrite !H.
    + assert (H : error_event this = set_src s this)
        by (unfold error_event; by rewrite Hc, Hs).
      rewrite H. repeat split; try done.
      unfold error_event. simpl. by rewrite Hc, Hs.
  - assert (H : error_event this = this)
      by (unfold error_event; by rewrite Hc).
    by rewrite !H.
Qed.

(** ** Runs of the scan among other events *)

Section events.
Implicit Types (env : Env) (doc : list Img) (img : Img) (d : string).

Lemma error_event_shape img :
  error_event img = img ∨ ∃ s, error_event img = set_src s img.
Proof.
  unfold error_event. destruct (onerror img) as [c|]; [|by left].
  destruct (onerror_handler_uniform c) as [H | [s H]]; rewrite H; eauto.
Qed.

Lemma callback_data_load env img :
  data_load (loadAllImages_callback env img) = data_load img.
Proof.
  unfold loadAllImages_callback. destruct (bool_decide _); [done|].
  destruct (data_load img) as [d|] eqn:Hd; [|done].
  by destruct (negb (JS.truthy d)).
Qed.

Lemma callback_settled env img : settled (loadAllImages_callback env img).
Proof.
  unfold loadAllImages_callback, settled.
  destruct (bool_decide (data_loaded img = Some "true")) eqn:Hl.
  - left. by apply bool_decide_eq_true in Hl.
  - destruct (data_load img) as [d|] eqn:Hd; [|auto].
    destruct (String.eqb_spec d "") as [->|Hne].
    + simpl. auto.
    + unfold JS.truthy. apply String.eqb_neq in Hne. rewrite Hne. simpl. auto.
Qed.

Lemma settled_callback env img :
  settled img → loadAllImages_callback env img = img.
Proof.
  unfold settled, loadAllImages_callback. intros [H | [H | H]].
  - by rewrite bool_decide_eq_true_2.
  - rewrite H. by destruct (bool_decide _).
  - rewrite H. by destruct (bool_decide _).
Qed.

Lemma error_event_settled img : settled img → settled (error_event img).
Proof.
  by destruct (error_event_shape img) as [-> | [s ->]].
Qed.

Lemma dispatch_settled doc e :
  Forall settled doc → Forall settled (dispatch doc e).
Proof.
  intros H. destruct e as [env|i]; simpl.
  - rewrite loadAllImages_fmap. apply Forall_fmap, Forall_true.
    intros img. apply callback_settled.
  - apply Forall_alter; [done|]. intros img _. apply error_event_settled.
Qed.

Lemma dispatch_all_settled events doc :
  Forall settled doc → Forall settled (dispatch_all events doc).
Proof.
  unfold dispatch_all. revert doc.
  induction events as [|e events IH]; intros doc H; [done|].
  simpl. by apply IH, dispatch_settled.
Qed.

Lemma loadAllImages_settled env doc :
  Forall settled doc → loadAllImages env doc = doc.
Proof.
  intros H. rewrite loadAllImages_fmap. rewrite <- (list_fmap_id doc) at 2.
  apply Forall_fmap_ext_1. eapply Forall_impl; [exact H|].
  intros img Himg. by apply settled_callback.
Qed.

Lemma activated_settled env d img : activated env d img → settled img.
Proof. intros (_ & H & _). by left. Qed.

Lemma activated_error env d img :
  activated env d img → activated env d (error_event img).
Proof.
  intros (H1 & H2 & H3 & H4 & H5 & H6 & H7).
  unfold error_event. rewrite H3, installed_handler.
  destruct (_ && _); simpl; [|by repeat split].
  repeat split; try done. by right.
Qed.

Lemma dispatch_activated env d doc e i img :
  doc !! i = Some img → activated env d img →
  ∃ img', dispatch doc e !! i = Some img' ∧ activated env d img'.
Proof.
  intros Hi Hact. destruct e as [env'|j]; simpl.
  - exists img. split; [|done].
    rewrite loadAllImages_lookup, Hi. simpl.
    f_equal. eapply settled_callback, activated_settled, Hact.
  - destruct (decide (j = i)) as [->|Hne].
    + exists (error_event img). split; [|by apply activated_error].
      by rewrite list_lookup_alter_eq, Hi.
    + exists img. split; [|done]. by rewrite list_lookup_alter_ne.
Qed.

Lemma dispatch_all_activated env d events doc i img :
  doc !! i = Some img → activated env d img →
  ∃ img', dispatch_all events doc !! i = Some img' ∧ activated env d img'.
Proof.
  unfold dispatch_all. revert doc img.
  induction events as [|e events IH]; intros doc img Hi Hact; [by eauto|].
  simpl. destruct (dispatch_activated env d doc e i img Hi Hact)
    as (img' & Hi' & Hact').
  by eapply IH.
Qed.

End events.

(** X10: once a scan under [env] has activated an element, any later
    sequence of scans (under whatever location) and load failures leaves
    it activated: its flag stays "true", its declared path and its three
    styles stay, and its [src] is never anything but the path resolved
    under [env] or the declared path itself. *)
Theorem src_resolved_or_declared
    (env : Env) (doc : list Img) (events : list Event)
    (i : nat) (img : Img) (declared : string) :
  doc !! i = Some img →
  data_load img = Some declared →
  declared ≠ "" →
  data_loaded img ≠ Some "true" →
  ∃ img', dispatch_all events (loadAllImages env doc) !! i = Some img'
    ∧ activated env declared img'.
Proof.
  intros Hi Hd Hne Hl.
  apply (dispatch_all_activated env declared events _ i
           (loadAllImages_callback env img)).
  - by rewrite loadAllImages_lookup, Hi.
  - unfold loadAllImages_callback, activated.
    rewrite bool_decide_eq_false_2 by done. rewrite Hd.
    apply String.eqb_neq in Hne. unfold JS.truthy. rewrite Hne. simpl.
    repeat split; try done. by left.
Qed.

Lemma src_resolved_or_declared_witness :
  ∃ img',
    dispatch_all [ErrorAt 0; Scan (page "/explore/index.html"); ErrorAt 0]
      (loadAllImages (page "/index.html") [placeholder "/images/a.png"])
    !! 0%nat = Some img'
    ∧ activated (page "/index.html") "/images/a.png" img'.
Proof.
  apply (src_resolved_or_declared (page "/index.html")
           [placeholder "/images/a.png"]
           [ErrorAt 0; Scan (page "/explore/index.html"); ErrorAt 0]
           0 (placeholder "/images/a.png") "/images/a.png");
    [reflexivity | reflexivity | discriminate | discriminate].
Defined.

(** X11: a scan neither adds nor removes elements and never changes a
    declared path; an element without [data-load], or with an empty one,
    is left exactly as it was. *)
Theorem loadAllImages_preserves (env : Env) (doc : list Img) :
  length (loadAllImages env doc) = length doc
  ∧ data_load <$> loadAllImages env doc = data_load <$> doc
  ∧ (∀ i img, doc !! i = Some img →
       data_load img = None ∨ data_load img = Some "" →
       loadAllImages env doc !! i = Some img).
Proof.
  rewrite loadAllImages_fmap. split; [apply length_fmap|]. split.
  - rewrite <- list_fmap_compose. apply list_fmap_ext.
    intros _ img _. apply callback_data_load.
  - intros i img Hi H. rewrite list_lookup_fmap, Hi. simpl. f_equal.
    apply settled_callback. by right.
Qed.

Lemma loadAllImages_preserves_witness :
  loadAllImages (page "/index.html") [placeholder ""] !! 0%nat
  = Some (placeholder "").
Proof.
  destruct (loadAllImages_preserves (page "/index.html") [placeholder ""])
    as (_ & _ & H).
  apply (H 0%nat (placeholder "")); [reflexivity | right; reflexivity].
Defined.

(** X12: after a scan no element with a non-empty declared path is left
    without the loaded flag, whatever the document was before. *)
Theorem loadAllImages_flags_all
    (env : Env) (doc : list Img) (i : nat) (img' : Img) (declared : string) :
  loadAllImages env doc !! i = Some img' →
  data_load img' = Some declared →
  declared ≠ "" →
  data_loaded img' = Some "true".
Proof.
  rewrite loadAllImages_lookup. intros Hi Hd Hne.
  destruct (doc !! i) as [img|]; [|done]. simpl in Hi.
  injection Hi as <-.
  destruct (callback_settled env img) as [H | [H | H]]; [done | |];
    rewrite H in Hd; congruence.
Qed.

Lemma loadAllImages_flags_all_witness :
  data_loaded (loadAllImages_callback (page "/index.html") (placeholder "a.png"))
  = Some "true".
Proof.
  apply (loadAllImages_flags_all (page "/index.html") [placeholder "a.png"]
           0 _ "a.png"); [reflexivity | reflexivity | discriminate].
Defined.

(** X13: elements appended to the document after a scan are activated
    by the next scan, and the elements the first scan has seen are left
    as they are. *)
Theorem loadAllImages_additions (env env' : Env) (doc added : list Img) :
  loadAllImages env' (loadAllImages env doc ++ added)
  = loadAllImages env doc ++ loadAllImages env' added.
Proof.
  rewrite !loadAllImages_fmap, fmap_app. f_equal.
  rewrite <- list_fmap_compose. apply list_fmap_ext.
  intros _ img _. apply loadAllImages_callback_twice.
Qed.

(** X14: after the first scan, a later scan changes nothing, whatever
    scans and load failures happened in between and whatever the
    location has become. *)
Theorem loadAllImages_after_events
    (env env' : Env) (doc : list Img) (events : list Event) :
  loadAllImages env' (dispatch_all events (loadAllImages env doc))
  = dispatch_all events (loadAllImages env doc).
Proof.
  apply loadAllImages_settled, dispatch_all_settled.
  rewrite loadAllImages_fmap. apply Forall_fmap, Forall_true.
  intros img. apply callback_settled.
Qed.

(** ** The load handler *)

Section load.
Implicit Types (nodes : list Node) (n : Node) (cls : string) (f : Node → Node).

Lemma querySelector_class_alter cls f i nodes :
  (∀ n, classList (f n) = classList n) →
  querySelector_class cls (alter f i nodes) = querySelector_class cls nodes.
Proof.
  intros Hf. revert i. induction nodes as [|n nodes IH]; intros i; [done|].
  destruct i as [|i].
  - simpl. by rewrite Hf.
  - change (alter f (S i) (n :: nodes)) with (n :: alter f i nodes).
    simpl. by rewrite IH.
Qed.

(** The handler written with the two lookups done on the nodes as they
    were: showing and hiding leave the class names alone. *)
Lemma onload_handler_alt this nodes :
  onload_handler this nodes =
    let shown := alter show this nodes in
    let hidden := match querySelector_class "loader" nodes with
                  | Some loader => alter hide loader shown
                  | None => shown
                  end in
    match querySelector_class "loading-img" nodes with
    | Some loadingImg => alter hide loadingImg hidden
    | None => hidden
    end.
Proof.
  unfold onload_handler. cbv zeta.
  rewrite (querySelector_class_alter "loader" show) by done.
  destruct (querySelector_class "loader" nodes) as [l|];
    rewrite ?(querySelector_class_alter "loading-img" hide) by done;
    by rewrite (querySelector_class_alter "loading-img" show) by done.
Qed.

Lemma onload_handler_lookup this nodes i :
  onload_handler this nodes !! i = onload_at this nodes i <$> nodes !! i.
Proof.
  rewrite onload_handler_alt. unfold onload_at. cbv zeta.
  destruct (querySelector_class "loader" nodes) as [l|],
           (querySelector_class "loading-img" nodes) as [m|];
    rewrite ?list_lookup_alter;
    repeat case_decide; simplify_eq; try done;
    by destruct (nodes !! i).
Qed.

End load.

Section load_effect.
Implicit Types (nodes : list Node) (n : Node) (cls : string).

Lemma onload_at_classList this nodes i n :
  classList (onload_at this nodes i n) = classList n.
Proof. unfold onload_at. by repeat case_decide. Qed.

Lemma onload_handler_classes this nodes :
  classList <$> onload_handler this nodes = classList <$> nodes.
Proof.
  apply list_eq. intros i.
  rewrite !list_lookup_fmap, onload_handler_lookup.
  destruct (nodes !! i) as [n|]; [|done]. simpl.
  by rewrite onload_at_classList.
Qed.

Lemma querySelector_class_classes cls nodes nodes' :
  classList <$> nodes' = classList <$> nodes →
  querySelector_class cls nodes' = querySelector_class cls nodes.
Proof.
  revert nodes'. induction nodes as [|n nodes IH]; intros [|n' nodes'];
    try done.
  intros [= Hn Hrest]. simpl. rewrite Hn. by rewrite (IH _ Hrest).
Qed.

End load_effect.

(** X15: what a load event does.  The handler keeps the number of nodes
    and their class names.  The first node with class "loader" and the
    first with class "loading-img" under the parent end with display
    "none", also when that node is the image itself.  An image that is
    neither of the two ends shown ("block", "visible", "1"), and every
    other node is left as it was. *)
Theorem onload_handler_effect (this : nat) (nodes : list Node) :
  length (onload_handler this nodes) = length nodes
  ∧ classList <$> onload_handler this nodes = classList <$> nodes
  ∧ (∀ i n, querySelector_class "loader" nodes = Some i
            ∨ querySelector_class "loading-img" nodes = Some i →
            onload_handler this nodes !! i = Some n →
            node_display n = "none")
  ∧ (∀ n, nodes !! this = Some n →
          querySelector_class "loader" nodes ≠ Some this →
          querySelector_class "loading-img" nodes ≠ Some this →
          onload_handler this nodes !! this = Some (show n))
  ∧ (∀ i, i ≠ this →
          querySelector_class "loader" nodes ≠ Some i →
          querySelector_class "loading-img" nodes ≠ Some i →
          onload_handler this nodes !! i = nodes !! i).
Proof.
  split; [|split; [apply onload_handler_classes|]].
  { rewrite <- (length_fmap classList), onload_handler_classes.
    apply length_fmap. }
  split; [|split].
  - intros i n Hq. rewrite onload_handler_lookup.
    destruct (nodes !! i) as [m|]; [|done]. simpl. intros [= <-].
    unfold onload_at. destruct Hq as [Hq|Hq]; by repeat case_decide.
  - intros n Hn Hl Hm. rewrite onload_handler_lookup, Hn. simpl.
    unfold onload_at. by repeat case_decide.
  - intros i Hi Hl Hm. rewrite onload_handler_lookup.
    destruct (nodes !! i) as [m|]; [|done]. simpl.
    unfold onload_at. by repeat case_decide.
Qed.

Lemma onload_handler_effect_witness :
  ∃ n, onload_handler 1 spinner_and_image !! 1%nat = Some n
       ∧ node_display n = "none".
Proof.
  destruct (onload_handler_effect 1 spinner_and_image) as (_ & _ & H & _).
  eexists. split; [reflexivity|].
  eapply (H 1%nat); [right; reflexivity | reflexivity].
Defined.

(** X16: a second load event on the same image changes nothing more. *)
Theorem onload_handler_twice (this : nat) (nodes : list Node) :
  onload_handler this (onload_handler this nodes) = onload_handler this nodes.
Proof.
  apply list_eq. intros i. rewrite !onload_handler_lookup.
  destruct (nodes !! i) as [n|]; [|done]. simpl. f_equal.
  unfold onload_at.
  rewrite !(querySelector_class_classes _ _ _ (onload_handler_classes this nodes)).
  by repeat case_decide.
Qed.

(** ** The resolver of part_000 *)

Section part_000.
Implicit Types (s t p : string) (a b : ascii).

Lemma startsWith_slash_cons b s :
  JS.startsWith (String b s) "/" = bool_decide ("/"%char = b).
Proof.
  unfold JS.startsWith.
  change (String.prefix "/" (String b s))
    with (if ascii_dec "/" b then String.prefix "" s else false).
  destruct (ascii_dec "/" b) as [<-|Hne].
  - by rewrite prefix_empty, bool_decide_eq_true_2.
  - by rewrite bool_decide_eq_false_2.
Qed.

Lemma includes_double_cons a s :
  includes "//" (String a s)
  = bool_decide ("/"%char = a) && JS.startsWith s "/" || includes "//" s.
Proof.
  change (includes "//" (String a s))
    with ((if ascii_dec "/" a then String.prefix "/" s else false)
          || includes "//" s).
  destruct (ascii_dec "/" a) as [<-|Hne].
  - by rewrite bool_decide_eq_true_2.
  - by rewrite bool_decide_eq_false_2.
Qed.

(** Collapsing keeps a leading separator a leading separator, and makes
    none. *)
Lemma collapse_slashes_start s :
  JS.startsWith (JS.collapse_slashes s) "/" = JS.startsWith s "/".
Proof.
  induction s as [|a s IH]; [done|]. simpl JS.collapse_slashes.
  rewrite eqb_slash. case_bool_decide as Ha.
  - subst a. destruct s as [|b s]; [done|].
    rewrite eqb_slash. case_bool_decide as Hb.
    + rewrite IH. subst b. by rewrite !startsWith_slash_cons.
    + by rewrite !startsWith_slash_cons.
  - rewrite !startsWith_slash_cons. by rewrite !bool_decide_eq_false_2.
Qed.

(** After collapsing, no two separators stand side by side. *)
Lemma collapse_slashes_single s :
  includes "//" (JS.collapse_slashes s) = false.
Proof.
  induction s as [|a s IH]; [done|]. simpl JS.collapse_slashes.
  rewrite eqb_slash. case_bool_decide as Ha.
  - subst a. destruct s as [|b s]; [done|].
    rewrite eqb_slash. case_bool_decide as Hb; [done|].
    rewrite includes_double_cons, IH, collapse_slashes_start.
    rewrite startsWith_slash_cons, (bool_decide_eq_false_2 _ Hb).
    by rewrite andb_false_r.
  - rewrite includes_double_cons, IH.
    by rewrite (bool_decide_eq_false_2 _ Ha).
Qed.

(** A string without doubled separators is collapsed to itself. *)
Lemma collapse_slashes_id s :
  includes "//" s = false → JS.collapse_slashes s = s.
Proof.
  induction s as [|a s IH]; [done|].
  rewrite includes_double_cons. intros [Ha Hs]%orb_false_iff.
  simpl JS.collapse_slashes. rewrite (IH Hs), eqb_slash.
  case_bool_decide as Ha'; [|done].
  destruct s as [|b s]; [done|].
  rewrite andb_true_l, startsWith_slash_cons in Ha.
  by rewrite eqb_slash, Ha.
Qed.

Lemma drop_leading_slash t :
  includes "//" t = false →
  let r := if JS.startsWith t "/" then JS.substring 1 t else t in
  JS.startsWith r "/" = false ∧ includes "//" r = false.
Proof.
  destruct t as [|a t]; [done|].
  rewrite includes_double_cons, startsWith_slash_cons.
  intros [Ha Ht]%orb_false_iff. cbv zeta.
  case_bool_decide as Ha'.
  - change (JS.substring 1 (String a t)) with t.
    by rewrite andb_true_l in Ha.
  - rewrite startsWith_slash_cons, includes_double_cons, Ht.
    by rewrite (bool_decide_eq_false_2 _ Ha').
Qed.

End part_000.

(** X17: for a path without scheme prefix that starts with neither "/"
    nor "../", the resolver of part_000 returns a string that does not
    start with "/" and has no two "/" side by side. *)
Theorem Part000_relative_result (env : Env) (path : string) :
  JS.startsWith path "http://" = false →
  JS.startsWith path "https://" = false →
  JS.startsWith path "/" = false →
  JS.startsWith path "../" = false →
  JS.startsWith (Part000.fixImagePath env path) "/" = false
  ∧ includes "//" (Part000.fixImagePath env path) = false.
Proof.
  intros H1 H2 H3 H4. unfold Part000.fixImagePath.
  rewrite H1, H2, H3, H4. simpl orb. cbv beta iota zeta.
  apply drop_leading_slash, collapse_slashes_single.
Qed.

Lemma Part000_relative_result_witness :
  JS.startsWith (Part000.fixImagePath (page "/explore/index.html") "a//b.png")
                "/" = false
  ∧ includes "//" (Part000.fixImagePath (page "/explore/index.html") "a//b.png")
    = false.
Proof.
  apply (Part000_relative_result (page "/explore/index.html") "a//b.png");
    reflexivity.
Defined.

(** X18: on a page that is not a local file and has a non-empty
    [pathname], the two variants see the same segments, both when the
    address parses to that [pathname] and when it does not parse. *)
Theorem pathParts_agree (env : Env) :
  JS.startsWith (href env) "file://" = false →
  pathname env ≠ "" →
  URL_pathname env (href env) = Some (pathname env)
  ∨ URL_pathname env (href env) = None →
  Part000.pathParts env = parts (getFileLocation env).
Proof.
  intros Hf Hp Hu.
  unfold Part000.pathParts, getFileLocation, getFileLocation_http,
    getFileLocation_fallback.
  rewrite Hf. unfold JS.or, JS.truthy.
  apply String.eqb_neq in Hp. by destruct Hu as [-> | ->]; simpl; rewrite Hp.
Qed.

Lemma pathParts_agree_witness :
  Part000.pathParts (page "/explore/game/2048.html")
  = parts (getFileLocation (page "/explore/game/2048.html")).
Proof.
  apply (pathParts_agree (page "/explore/game/2048.html"));
    [reflexivity | discriminate | left; reflexivity].
Defined.

(** X19: where neither variant sees any segment (a page at the top of
    the site), both return a bare relative path without "//" unchanged. *)
Theorem fixImagePath_variants_agree_at_top (env : Env) (path : string) :
  parts (getFileLocation env) = [] →
  Part000.pathParts env = [] →
  bare path = true →
  includes "//" path = false →
  fixImagePath env path = path ∧ Part000.fixImagePath env path = path.
Proof.
  intros Hl Hp Hbare Hd. unfold bare in Hbare.
  rewrite !andb_true_iff, !negb_true_iff in Hbare.
  destruct Hbare as [[[[H1 H2] H3] H4] H5]. split.
  - rewrite (fixImagePath_bare env path H1 H2 H3 H4 H5), Hl. cbv zeta.
    by destruct (JS.startsWith path "images/").
  - unfold Part000.fixImagePath. rewrite H1, H2, H3, H4, H5, Hp.
    simpl orb. cbv beta iota zeta.
    change (JS.join [] +:+ "/" +:+ path) with (String "/" path).
    rewrite collapse_slashes_id.
    + by rewrite startsWith_slash_cons.
    + rewrite includes_double_cons, H3, Hd. by rewrite andb_false_r.
Qed.

Lemma fixImagePath_variants_agree_at_top_witness :
  fixImagePath (page "/index.html") "img/a.png" = "img/a.png"
  ∧ Part000.fixImagePath (page "/index.html") "img/a.png" = "img/a.png".
Proof.
  apply (fixImagePath_variants_agree_at_top (page "/index.html") "img/a.png");
    reflexivity.
Defined.

(** ** The scan of part_000 *)

Section scan_000.
Implicit Types (env : Env) (doc : list Img) (img : Img) (f : Img → Img).

(** A callback that leaves elements without [data-load] alone acts on
    the whole document element by element. *)
Lemma forEach_selected f doc :
  (∀ img, data_load img = None → f img = img) →
  forEach f (querySelectorAll_img_data_load doc) doc = f <$> doc.
Proof.
  intros Hf. apply list_eq. intros j. rewrite list_lookup_fmap.
  destruct (decide (j ∈ querySelectorAll_img_data_load doc)) as [Hj|Hj].
  - apply forEach_lookup_in; [apply querySelectorAll_NoDup | done].
  - rewrite forEach_lookup_notin by done.
    rewrite querySelectorAll_elem in Hj.
    destruct (doc !! j) as [img|]; [|done]. simpl in *.
    rewrite Hf; [done|]. destruct (data_load img); [by destruct Hj | done].
Qed.

Lemma Part000_loadAllImages_fmap env doc :
  Part000.loadAllImages env doc = Part000.loadAllImages_callback env <$> doc.
Proof.
  apply forEach_selected. intros img H.
  unfold Part000.loadAllImages_callback. rewrite H.
  by destruct (bool_decide _).
Qed.

Lemma Part000_callback_settled env img :
  settled (Part000.loadAllImages_callback env img).
Proof.
  unfold Part000.loadAllImages_callback, settled.
  destruct (bool_decide (data_loaded img = Some "true")) eqn:Hl.
  - left. by apply bool_decide_eq_true in Hl.
  - destruct (data_load img) as [d|] eqn:Hd; [|auto].
    destruct (String.eqb_spec d "") as [->|Hne].
    + simpl. auto.
    + unfold JS.truthy. apply String.eqb_neq in Hne. rewrite Hne. simpl. auto.
Qed.

Lemma settled_Part000_callback env img :
  settled img → Part000.loadAllImages_callback env img = img.
Proof.
  unfold settled, Part000.loadAllImages_callback. intros [H | [H | H]].
  - by rewrite bool_decide_eq_true_2.
  - rewrite H. by destruct (bool_decide _).
  - rewrite H. by destruct (bool_decide _).
Qed.

Lemma fmap_settled f doc :
  (∀ img, settled img → f img = img) → Forall settled doc → f <$> doc = doc.
Proof.
  intros Hf H. rewrite <- (list_fmap_id doc) at 2.
  apply Forall_fmap_ext_1. eapply Forall_impl; [exact H|]. exact Hf.
Qed.

End scan_000.

(** X20: the scan of part_000 gives an element with a non-empty
    [data-load] and no loaded flag the path resolved by part_000 as its
    [src] and sets the flag, but leaves its three style properties as
    they were; and a second run of that scan changes nothing. *)
Theorem Part000_loadAllImages_activates (env : Env) (doc : list Img) :
  (∀ i img declared,
     doc !! i = Some img →
     data_load img = Some declared →
     declared ≠ "" →
     data_loaded img ≠ Some "true" →
     ∃ img', Part000.loadAllImages env doc !! i = Some img'
       ∧ src img' = Some (Part000.fixImagePath env declared)
       ∧ data_loaded img' = Some "true"
       ∧ style_display img' = style_display img
       ∧ style_visibility img' = style_visibility img
       ∧ style_opacity img' = style_opacity img)
  ∧ Part000.loadAllImages env (Part000.loadAllImages env doc)
    = Part000.loadAllImages env doc.
Proof.
  split.
  - intros i img d Hi Hd Hne Hl.
    rewrite Part000_loadAllImages_fmap, list_lookup_fmap, Hi. simpl.
    eexists. split; [reflexivity|].
    unfold Part000.loadAllImages_callback.
    rewrite bool_decide_eq_false_2 by done. rewrite Hd.
    apply String.eqb_neq in Hne. unfold JS.truthy. rewrite Hne. simpl.
    done.
  - rewrite (Part000_loadAllImages_fmap env (Part000.loadAllImages env doc)).
    apply fmap_settled; [apply settled_Part000_callback|].
    rewrite Part000_loadAllImages_fmap. apply Forall_fmap, Forall_true.
    intros img. apply Part000_callback_settled.
Qed.

Lemma Part000_loadAllImages_activates_witness :
  ∃ img', Part000.loadAllImages (page "/index.html")
            [placeholder "/images/a.png"] !! 0%nat = Some img'
    ∧ src img' = Some (Part000.fixImagePath (page "/index.html")
                                            "/images/a.png")
    ∧ data_loaded img' = Some "true"
    ∧ style_display img' = style_display (placeholder "/images/a.png")
    ∧ style_visibility img' = style_visibility (placeholder "/images/a.png")
    ∧ style_opacity img' = style_opacity (placeholder "/images/a.png").
Proof.
  destruct (Part000_loadAllImages_activates (page "/index.html")
              [placeholder "/images/a.png"]) as [H _].
  apply (H 0%nat (placeholder "/images/a.png") "/images/a.png");
    [reflexivity | reflexivity | discriminate | discriminate].
Defined.

(** X21: the two scans respect each other's loaded flag: whichever of
    the two has scanned a document first, a scan by the other changes
    nothing. *)
Theorem loadAllImages_first_scan_wins (env env' : Env) (doc : list Img) :
  loadAllImages env' (Part000.loadAllImages env doc)
  = Part000.loadAllImages env doc
  ∧ Part000.loadAllImages env' (loadAllImages env doc)
    = loadAllImages env doc.
Proof.
  split.
  - apply loadAllImages_settled.
    rewrite Part000_loadAllImages_fmap. apply Forall_fmap, Forall_true.
    intros img. apply Part000_callback_settled.
  - rewrite Part000_loadAllImages_fmap.
    apply fmap_settled; [apply settled_Part000_callback|].
    rewrite loadAllImages_fmap. apply Forall_fmap, Forall_true.
    intros img. apply callback_settled.
Qed.
